(** * Transcript service: formatting layer and error mapping

    A shallow embedding of [src/app/main.py]: the language-preference parser,
    the SRT/VTT timestamp formatters, the caption serializers and the
    exception-to-status mapping of the [/transcript] handler.

    Python values are modelled as follows.
    - [str] is a sequence of Unicode code points ([list N]).
    - [float] is IEEE-754 binary64, through the executable specification of
      [SpecFloat] (no primitive floats, no axioms).
    - [int] is [Z]; Python's [//] and [%] with a positive divisor are [Z.div]
      and [Z.modulo] (both floor towards minus infinity).
    - a call that can raise returns a [result]. *)

From Stdlib Require Import Ascii String.
From Stdlib Require Import ZArith NArith List Bool Lia.
From Stdlib Require Import SpecFloat.
Import ListNotations.

Local Open Scope Z_scope.

(* ================================================================== *)
(** * Python strings *)
(* ================================================================== *)

Module PyStr.

Definition codepoint := N.
Definition pystr := list codepoint.

(** A literal made of ASCII characters. *)
Definition str (s : String.string) : pystr :=
  map N_of_ascii (String.list_ascii_of_string s).
Arguments str _%_string.

Definition nl : pystr := [10%N].
Definition comma : codepoint := 44%N.
Definition period : codepoint := 46%N.
Definition minus_sign : codepoint := 45%N.
Definition zero_digit : codepoint := 48%N.

Definition in_range (lo hi c : N) : bool := (N.leb lo c && N.leb c hi)%bool.

(** [Py_UNICODE_ISSPACE]: the characters [str.strip] removes when called
    without arguments. *)
Definition is_space (c : codepoint) : bool :=
  (in_range 9 13 c || in_range 28 32 c
   || N.eqb c 133 || N.eqb c 160 || N.eqb c 5760
   || in_range 8192 8202 c
   || N.eqb c 8232 || N.eqb c 8233 || N.eqb c 8239 || N.eqb c 8287
   || N.eqb c 12288)%bool.

(** [s.lstrip()], [s.rstrip()], [s.strip()]. *)
Fixpoint lstrip (s : pystr) : pystr :=
  match s with
  | [] => []
  | c :: rest => if is_space c then lstrip rest else s
  end.

Definition rstrip (s : pystr) : pystr := rev (lstrip (rev s)).

Definition strip (s : pystr) : pystr := rstrip (lstrip s).

(** [s.split(sep)] for a one-character separator: [k] separators give
    [k + 1] pieces, and the empty string gives one empty piece. *)
Fixpoint split (sep : codepoint) (s : pystr) : list pystr :=
  match s with
  | [] => [[]]
  | c :: rest =>
      if N.eqb c sep then [] :: split sep rest
      else match split sep rest with
           | [] => [[c]]
           | piece :: pieces => (c :: piece) :: pieces
           end
  end.

(** [sep.join(pieces)]. *)
Fixpoint join (sep : pystr) (pieces : list pystr) : pystr :=
  match pieces with
  | [] => []
  | [p] => p
  | p :: rest => p ++ sep ++ join sep rest
  end.

(** Truthiness of a string: [if code], [if not lang]. *)
Definition truthy (s : pystr) : bool :=
  match s with [] => false | _ :: _ => true end.

Definition is_ascii (c : codepoint) : bool := N.ltb c 128.

(** What [str.lower] does to an ASCII character. *)
Definition ascii_lower (c : codepoint) : codepoint :=
  if in_range 65 90 c then (c + 32)%N else c.

(** ** Decimal rendering of integers *)

Definition digit_char (d : Z) : codepoint := (zero_digit + Z.to_N d)%N.

Definition is_digit (c : codepoint) : bool := in_range 48 57 c.

Fixpoint digits_fuel (fuel : nat) (n : Z) (acc : pystr) : pystr :=
  match fuel with
  | O => acc
  | S fuel' =>
      let acc' := digit_char (n mod 10) :: acc in
      if n <? 10 then acc' else digits_fuel fuel' (n / 10) acc'
  end.

(** The decimal digits of a non-negative integer, most significant first.
    A number has no more decimal digits than binary ones, which bounds the
    number of divisions by ten. *)
Definition digits (n : Z) : pystr :=
  digits_fuel (S (Z.to_nat (Z.log2 n))) n [].

(** [str(n)]. *)
Definition str_int (n : Z) : pystr :=
  if n <? 0 then minus_sign :: digits (- n) else digits n.

(** [s.zfill(width)] for a string of digits. *)
Definition zfill (width : nat) (s : pystr) : pystr :=
  repeat zero_digit (width - length s) ++ s.

(** [format(n, "0<width>d")], the [{n:02d}] and [{n:03d}] of the f-strings:
    sign first, then zeros up to the minimum width, then the digits. *)
Definition format_0d (width : nat) (n : Z) : pystr :=
  if n <? 0 then minus_sign :: zfill (width - 1) (digits (- n))
  else zfill width (digits n).

(** The number a string of decimal digits denotes. *)
Definition digits_value (s : pystr) : Z :=
  fold_left (fun acc c => 10 * acc + (Z.of_N c - 48)) s 0.

End PyStr.
Import PyStr.

(* ================================================================== *)
(** * Exceptions and results *)
(* ================================================================== *)

(** The exception classes the service can meet: Python's built-in ones that
    the formatting code and the construction of a response can raise, and
    the classes of the [youtube_transcript_api] package ([main.py], lines
    9-22). *)
Inductive exc_class :=
  | BaseException
  | KeyboardInterrupt
  | PyException
  | ArithmeticError
  | OverflowError
  | ValueError
  | UnicodeError
  | UnicodeEncodeError
  | OSError
  | YouTubeTranscriptApiException
  | CookieError
  | CookiePathInvalid
  | CookieInvalid
  | CouldNotRetrieveTranscript
  | YouTubeDataUnparsable
  | YouTubeRequestFailed
  | VideoUnplayable
  | VideoUnavailable
  | InvalidVideoId
  | RequestBlocked
  | IpBlocked
  | TranscriptsDisabled
  | AgeRestricted
  | NotTranslatable
  | TranslationLanguageNotAvailable
  | FailedToCreateConsentCookie
  | NoTranscriptFound
  | PoTokenRequired.

Scheme Equality for exc_class.

(** The direct base class of each class. The package's classes are declared
    in its errors module: every retrieval error derives from
    [CouldNotRetrieveTranscript], which derives from
    [YouTubeTranscriptApiException]; [IpBlocked] refines [RequestBlocked]. *)
Definition base_class (c : exc_class) : option exc_class :=
  match c with
  | BaseException => None
  | KeyboardInterrupt => Some BaseException
  | PyException => Some BaseException
  | ArithmeticError => Some PyException
  | OverflowError => Some ArithmeticError
  | ValueError => Some PyException
  | UnicodeError => Some ValueError
  | UnicodeEncodeError => Some UnicodeError
  | OSError => Some PyException
  | YouTubeTranscriptApiException => Some PyException
  | CookieError => Some YouTubeTranscriptApiException
  | CookiePathInvalid => Some CookieError
  | CookieInvalid => Some CookieError
  | CouldNotRetrieveTranscript => Some YouTubeTranscriptApiException
  | IpBlocked => Some RequestBlocked
  | YouTubeDataUnparsable | YouTubeRequestFailed | VideoUnplayable
  | VideoUnavailable | InvalidVideoId | RequestBlocked | TranscriptsDisabled
  | AgeRestricted | NotTranslatable | TranslationLanguageNotAvailable
  | FailedToCreateConsentCookie | NoTranscriptFound | PoTokenRequired =>
      Some CouldNotRetrieveTranscript
  end.

Fixpoint subclass_upto (depth : nat) (c d : exc_class) : bool :=
  exc_class_beq c d
  || match depth with
     | O => false
     | S depth' =>
         match base_class c with
         | None => false
         | Some b => subclass_upto depth' b d
         end
     end.

(** [issubclass(c, d)]; no chain of base classes is longer than six. *)
Definition issubclass (c d : exc_class) : bool := subclass_upto 6 c d.

(** A raised exception: its class and [str(e)]. *)
Record exn := { exn_class : exc_class; exn_msg : pystr }.

(** [except (d1, d2, ...)]: the clause takes [e] when [e] is an instance of
    one of the listed classes. *)
Definition caught_by (classes : list exc_class) (e : exn) : bool :=
  existsb (issubclass (exn_class e)) classes.

Inductive result (A : Type) : Type :=
  | Ok (a : A)
  | Raise (e : exn).
Arguments Ok {A} a.
Arguments Raise {A} e.

Definition bind {A B : Type} (r : result A) (k : A -> result B) : result B :=
  match r with
  | Ok a => k a
  | Raise e => Raise e
  end.

Notation "x <- r ;; k" := (bind r (fun x => k))
  (at level 61, r at next level, right associativity).

(* ================================================================== *)
(** * Python floats *)
(* ================================================================== *)

Module Float64.

Definition prec : Z := 53.
Definition emax : Z := 1024.

Definition float := spec_float.

Definition mul : float -> float -> float := SFmul prec emax.
Definition add : float -> float -> float := SFadd prec emax.

(** The float nearest to [m * 2^e]; [of_Z n] is [float(n)]. *)
Definition of_scaled (m e : Z) : float := binary_normalize prec emax m e false.
Definition of_Z (n : Z) : float := of_scaled n 0.

(** [x >= 0.0]. *)
Definition is_nonneg (x : float) : bool :=
  match x with
  | S754_zero _ => true
  | S754_infinity s => negb s
  | S754_finite s _ _ => negb s
  | S754_nan => false
  end.

Definition is_finite (x : float) : bool :=
  match x with
  | S754_zero _ | S754_finite _ _ _ => true
  | S754_infinity _ | S754_nan => false
  end.

(** The integer nearest to [m * 2^e], ties going to the even one. *)
Definition nearest_even (m : positive) (e : Z) : Z :=
  if 0 <=? e then Z.pos m * 2 ^ e
  else
    let d := 2 ^ (- e) in
    let q := Z.pos m / d in
    let r := Z.pos m mod d in
    match 2 * r ?= d with
    | Lt => q
    | Gt => q + 1
    | Eq => if Z.even q then q else q + 1
    end.

(** [round(x)] with one argument: the nearest integer as an [int], halves to
    the even neighbour; it raises on an infinity or a NaN. *)
Definition py_round (x : float) : result Z :=
  match x with
  | S754_zero _ => Ok 0
  | S754_finite s m e => Ok (cond_Zopp s (nearest_even m e))
  | S754_infinity _ =>
      Raise {| exn_class := OverflowError;
               exn_msg := str "cannot convert float infinity to integer" |}
  | S754_nan =>
      Raise {| exn_class := ValueError;
               exn_msg := str "cannot convert float NaN to integer" |}
  end.

End Float64.

(* ================================================================== *)
(** * The service ([src/app/main.py]) *)
(* ================================================================== *)

(** A caption snippet as the provider yields it. *)
Record snippet := {
  text : pystr;
  start : Float64.float;
  duration : Float64.float
}.

(** The expression [int(round(seconds * 1000))] that opens both timestamp
    functions, named for the statements below. *)
Definition rounded_ms (seconds : Float64.float) : result Z :=
  Float64.py_round (Float64.mul seconds (Float64.of_Z 1000)).

Definition _to_srt_timestamp (seconds : Float64.float) : result pystr :=
  milliseconds_total <-
    Float64.py_round (Float64.mul seconds (Float64.of_Z 1000)) ;;
  let hours := milliseconds_total / 3600000 in
  let minutes := (milliseconds_total mod 3600000) / 60000 in
  let secs := (milliseconds_total mod 60000) / 1000 in
  let millis := milliseconds_total mod 1000 in
  Ok (format_0d 2 hours ++ str ":" ++ format_0d 2 minutes ++ str ":"
      ++ format_0d 2 secs ++ str "," ++ format_0d 3 millis).

Definition _to_vtt_timestamp (seconds : Float64.float) : result pystr :=
  milliseconds_total <-
    Float64.py_round (Float64.mul seconds (Float64.of_Z 1000)) ;;
  let hours := milliseconds_total / 3600000 in
  let minutes := (milliseconds_total mod 3600000) / 60000 in
  let secs := (milliseconds_total mod 60000) / 1000 in
  let millis := milliseconds_total mod 1000 in
  Ok (format_0d 2 hours ++ str ":" ++ format_0d 2 minutes ++ str ":"
      ++ format_0d 2 secs ++ str "." ++ format_0d 3 millis).

Definition _format_txt (transcript : list snippet) : pystr :=
  join nl (map text transcript).

(** The loop of [_format_srt]: [idx] is the counter of [enumerate] and
    [lines] the list the body appends to. *)
Fixpoint srt_lines (idx : Z) (transcript : list snippet) (lines : list pystr)
  : result (list pystr) :=
  match transcript with
  | [] => Ok lines
  | snippet :: rest =>
      start_ <- _to_srt_timestamp (start snippet) ;;
      end_ <- _to_srt_timestamp (Float64.add (start snippet) (duration snippet)) ;;
      srt_lines (idx + 1) rest
        (lines ++ [str_int idx; start_ ++ str " --> " ++ end_; text snippet; []])
  end.

Definition _format_srt (transcript : list snippet) : result pystr :=
  lines <- srt_lines 1 transcript [] ;;
  Ok (rstrip (join nl lines) ++ nl).

(** The loop of [_format_vtt]. *)
Fixpoint vtt_lines (transcript : list snippet) (lines : list pystr)
  : result (list pystr) :=
  match transcript with
  | [] => Ok lines
  | snippet :: rest =>
      start_ <- _to_vtt_timestamp (start snippet) ;;
      end_ <- _to_vtt_timestamp (Float64.add (start snippet) (duration snippet)) ;;
      vtt_lines rest (lines ++ [start_ ++ str " --> " ++ end_; text snippet; []])
  end.

Definition _format_vtt (transcript : list snippet) : result pystr :=
  lines <- vtt_lines transcript [str "WEBVTT"; []] ;;
  Ok (rstrip (join nl lines) ++ nl).

(** ** Language preferences *)

Section Parser.

(** [str.lower]. Its result on non-ASCII text is fixed by the Unicode case
    tables of the interpreter, which are not part of the repository: the
    parser is parameterised by it, and the theorems state what they assume
    of it ([lower_spec]). *)
Variable str_lower : pystr -> pystr.

Definition _parse_languages (lang : option pystr) : list pystr :=
  match lang with
  | None => [str "en"]
  | Some lang =>
      if negb (truthy lang) then [str "en"]
      else
        let languages :=
          map (fun code => str_lower (strip code)) (split comma lang) in
        filter truthy languages
  end.

End Parser.

(** What the theorems assume of [str.lower]: on ASCII text it maps [A-Z] to
    [a-z] and keeps every other character, and it never turns a non-empty
    string into the empty one. *)
Definition lower_spec (lower : pystr -> pystr) : Prop :=
  (forall s, forallb is_ascii s = true -> lower s = map ascii_lower s)
  /\ (forall s, lower s = [] -> s = []).

(** A function that meets [lower_spec]; it instantiates the theorems on
    concrete inputs. *)
Definition lower_ascii_only (s : pystr) : pystr := map ascii_lower s.

(** ** The [/transcript] handler *)

Inductive output_format := json | srt | vtt | txt.

Inductive response :=
  | JSONResponse (content : list snippet)
  | PlainTextResponse (content : pystr).

(** The constructors of the framework's responses encode the body when the
    response is built, so [JSONResponse(content=...)] and
    [PlainTextResponse(content=...)] can raise.
    - [content.encode("utf-8")] raises [UnicodeEncodeError] on a surrogate
      code point (U+D800 to U+DFFF) and on nothing else.
    - [json.dumps(content, allow_nan=False, ...)] raises [ValueError] on a
      number that is infinite or a NaN; the text it returns is then encoded
      as above.
    The wording of these errors depends on the interpreter and on the
    rendered body; it is the parameter [render_message], a function of the
    response that could not be built. *)
Definition is_surrogate (c : codepoint) : bool := in_range 55296 57343 c.

Definition encodable (s : pystr) : bool :=
  forallb (fun c => negb (is_surrogate c)) s.

Definition json_compliant (sn : snippet) : bool :=
  Float64.is_finite (start sn) && Float64.is_finite (duration sn).

Section Responses.

Variable render_message : response -> pystr.

Definition PlainTextResponse_init (content : pystr) : result response :=
  if encodable content then Ok (PlainTextResponse content)
  else Raise {| exn_class := UnicodeEncodeError;
                exn_msg := render_message (PlainTextResponse content) |}.

Definition JSONResponse_init (content : list snippet) : result response :=
  if forallb json_compliant content then
    if forallb (fun sn => encodable (text sn)) content
    then Ok (JSONResponse content)
    else Raise {| exn_class := UnicodeEncodeError;
                  exn_msg := render_message (JSONResponse content) |}
  else Raise {| exn_class := ValueError;
                exn_msg := render_message (JSONResponse content) |}.

End Responses.

(** How a call of the handler ends: it returns a response, it raises
    [HTTPException(status_code, detail)], or another exception leaves it. *)
Inductive outcome :=
  | Respond (r : response)
  | HTTPException (status_code : Z) (detail : pystr)
  | Uncaught (e : exn).

Section Handler.

Variable str_lower : pystr -> pystr.
Variable render_message : response -> pystr.

(** The transcript provider: the calls the handler makes on the objects of
    [youtube_transcript_api], each of which may raise. [api] stands for the
    client that [_get_api()] builds once and returns ever after; a
    [FetchedTranscript] is the list of its snippets, which is also what
    [to_raw_data()] puts in the JSON body. *)
Variables TranscriptList Transcript : Type.

Record provider := {
  api_list : pystr -> result TranscriptList;
  find_transcript : TranscriptList -> list pystr -> result Transcript;
  find_generated_transcript :
    TranscriptList -> list pystr -> result Transcript;
  fetch : Transcript -> bool -> result (list snippet)
}.

Variable api : provider.

(** The body of the [try] statement (lines 147-167). *)
Definition try_body (video_id : pystr) (languages : list pystr)
    (fmt : output_format) (preserve_formatting : bool) : result response :=
  transcript_list <- api_list api video_id ;;
  transcript <-
    match find_transcript api transcript_list languages with
    | Ok t => Ok t
    | Raise e =>
        if caught_by [NoTranscriptFound] e
        then find_generated_transcript api transcript_list languages
        else Raise e
    end ;;
  fetched <- fetch api transcript preserve_formatting ;;
  match fmt with
  | json => JSONResponse_init render_message fetched
  | txt => PlainTextResponse_init render_message (_format_txt fetched)
  | srt =>
      content <- _format_srt fetched ;;
      PlainTextResponse_init render_message content
  | vtt =>
      content <- _format_vtt fetched ;;
      PlainTextResponse_init render_message content
  end.

(** The [except] clauses (lines 169-187), tried in order. *)
Definition handle (e : exn) : outcome :=
  if caught_by [NoTranscriptFound; TranscriptsDisabled; VideoUnavailable;
                VideoUnplayable; IpBlocked; RequestBlocked; AgeRestricted;
                InvalidVideoId; PoTokenRequired;
                YouTubeTranscriptApiException] e
  then HTTPException 404 (exn_msg e)
  else if caught_by [YouTubeRequestFailed] e
  then HTTPException 502 (exn_msg e)
  else if caught_by [PyException] e
  then HTTPException 500 (str "Internal Server Error")
  else Uncaught e.

Definition get_transcript (video_id lang : option pystr)
    (fmt : output_format) (preserve_formatting : bool) : outcome :=
  match video_id with
  | None | Some [] =>
      HTTPException 400 (str "Missing required query parameter 'videoId'.")
  | Some video_id =>
      let languages := _parse_languages str_lower lang in
      match try_body video_id languages fmt preserve_formatting with
      | Ok r => Respond r
      | Raise e => handle e
      end
  end.

End Handler.

Arguments api_list {TranscriptList Transcript}.
Arguments find_transcript {TranscriptList Transcript}.
Arguments find_generated_transcript {TranscriptList Transcript}.
Arguments fetch {TranscriptList Transcript}.
Arguments try_body render_message {TranscriptList Transcript}.
Arguments get_transcript str_lower render_message {TranscriptList Transcript}.

(** ** The provider client ([_get_api]) *)

(** [os.getenv]: the environment, as the lookup of a variable by name. *)
Definition environ := pystr -> option pystr.

(** The two objects [_get_api] constructs, each recorded by the arguments
    its constructor is given. *)
Record WebshareProxyConfig := {
  proxy_username : pystr;
  proxy_password : pystr;
  filter_ip_locations : option (list pystr)
}.

Record YouTubeTranscriptApi := {
  proxy_config : option WebshareProxyConfig
}.

(** The body of [_get_api] (lines 107-122). *)
Definition _get_api_body (getenv : environ) : YouTubeTranscriptApi :=
  let username := getenv (str "WEBSHARE_USER") in
  let password := getenv (str "WEBSHARE_PASS") in
  let countries_raw := getenv (str "WEBSHARE_COUNTRIES") in
  let proxy_config :=
    match username, password with
    | Some username, Some password =>
        if (truthy username && truthy password)%bool then
          let filter_ip_locations :=
            match countries_raw with
            | Some countries_raw =>
                if truthy countries_raw
                then Some (map strip
                             (filter (fun c => truthy (strip c))
                                (split comma countries_raw)))
                else None
            | None => None
            end in
          Some {| proxy_username := username;
                  proxy_password := password;
                  filter_ip_locations := filter_ip_locations |}
        else None
    | _, _ => None
    end in
  {| proxy_config := proxy_config |}.

(** [_get_api] under [lru_cache(maxsize=1)]: the function takes no argument,
    so the cache holds at most the one client built by the first call. A
    call returns the client and the cache it leaves. *)
Definition _get_api (getenv : environ) (cache : option YouTubeTranscriptApi)
  : YouTubeTranscriptApi * option YouTubeTranscriptApi :=
  match cache with
  | Some api => (api, cache)
  | None => let api := _get_api_body getenv in (api, Some api)
  end.

(** Successive calls of [_get_api], each under the environment of its time,
    starting from [cache]: the clients they return. *)
Fixpoint get_api_calls (environments : list environ)
    (cache : option YouTubeTranscriptApi) : list YouTubeTranscriptApi :=
  match environments with
  | [] => []
  | getenv :: later =>
      let (api, cache') := _get_api getenv cache in
      api :: get_api_calls later cache'
  end.

(* ================================================================== *)
(** * Specification vocabulary *)
(* ================================================================== *)

(** The definitions of this part follow the words of the specification; the
    theorems compare them with the functions above. *)

(** [pieces] are the comma-separated pieces of [s]: gluing them back with
    commas gives [s], and no piece holds a comma. *)
Definition comma_pieces (s : pystr) (pieces : list pystr) : Prop :=
  pieces <> [] /\ join [comma] pieces = s
  /\ Forall (fun p => ~ In comma p) pieces.

(** [t] is [p] trimmed of surrounding whitespace: [p] is [t] between two
    runs of whitespace, and [t] neither starts nor ends with whitespace. *)
Definition trimmed (p t : pystr) : Prop :=
  exists l r,
    p = l ++ t ++ r
    /\ forallb is_space l = true /\ forallb is_space r = true
    /\ (forall c, hd_error t = Some c -> is_space c = false)
    /\ (forall c, hd_error (rev t) = Some c -> is_space c = false).

(** The input names a language: it holds a character that is neither a
    comma nor whitespace. *)
Definition names_a_language (s : pystr) : bool :=
  existsb (fun c => negb (N.eqb c comma) && negb (is_space c))%bool s.

(** [s] renders the non-negative number [n] in decimal, zero-padded to
    [width] digits: digits only, of value [n], at least [width] of them, and
    no leading zero beyond the width. *)
Definition zero_padded (width : nat) (n : Z) (s : pystr) : Prop :=
  forallb is_digit s = true
  /\ digits_value s = n
  /\ (width <= length s)%nat
  /\ ((width < length s)%nat -> hd_error s <> Some zero_digit).

(** Emitting lines: each line is followed by a newline. *)
Definition emit (lines : list pystr) : pystr :=
  concat (map (fun line => line ++ nl) lines).

(** Running a fallible function over a list, left to right. *)
Fixpoint traverse {A B : Type} (f : A -> result B) (l : list A)
  : result (list B) :=
  match l with
  | [] => Ok []
  | a :: rest => b <- f a ;; bs <- traverse f rest ;; Ok (b :: bs)
  end.

(** The cues of a transcript with their 1-based indices. *)
Definition numbered (transcript : list snippet) : list (Z * snippet) :=
  combine (map Z.of_nat (seq 1 (length transcript))) transcript.

(** One SRT cue: index line, time line, text line, blank line. *)
Definition srt_cue (cue : Z * snippet) : result pystr :=
  let (i, sn) := cue in
  start_ <- _to_srt_timestamp (start sn) ;;
  end_ <- _to_srt_timestamp (Float64.add (start sn) (duration sn)) ;;
  Ok (emit [str_int i; start_ ++ str " --> " ++ end_; text sn; []]).

(** One VTT cue: time line, text line, blank line. *)
Definition vtt_cue (sn : snippet) : result pystr :=
  start_ <- _to_vtt_timestamp (start sn) ;;
  end_ <- _to_vtt_timestamp (Float64.add (start sn) (duration sn)) ;;
  Ok (emit [start_ ++ str " --> " ++ end_; text sn; []]).

(** The snippets whose two timestamps can be formatted: [start * 1000] and
    [(start + duration) * 1000] are finite. *)
Definition well_timed (sn : snippet) : bool :=
  Float64.is_finite (Float64.mul (start sn) (Float64.of_Z 1000))
  && Float64.is_finite
       (Float64.mul (Float64.add (start sn) (duration sn)) (Float64.of_Z 1000)).

(** [s] ends with exactly one newline: it is a body that does not end with
    whitespace, followed by a newline. *)
Definition one_trailing_newline (s : pystr) : Prop :=
  exists body, s = body ++ nl /\ rstrip body = body.

(** The kinds the first [except] clause lists by name. *)
Definition named_kinds : list exc_class :=
  [NoTranscriptFound; TranscriptsDisabled; VideoUnavailable; VideoUnplayable;
   IpBlocked; RequestBlocked; AgeRestricted; InvalidVideoId; PoTokenRequired].

Section ProviderRaises.

Context {TranscriptList Transcript : Type}.
Variable api : provider TranscriptList Transcript.
Variables (video_id : pystr) (languages : list pystr)
          (preserve_formatting : bool).

(** The track the handler settles on: the one the first lookup finds, or
    the one the lookup of generated tracks finds after the first lookup
    raised [NoTranscriptFound]. *)
Inductive selects (tl : TranscriptList) (t : Transcript) : Prop :=
  | selects_found :
      find_transcript api tl languages = Ok t -> selects tl t
  | selects_generated e0 :
      find_transcript api tl languages = Raise e0 ->
      caught_by [NoTranscriptFound] e0 = true ->
      find_generated_transcript api tl languages = Ok t ->
      selects tl t.

(** A provider call raises [e] and nothing absorbs it. *)
Inductive provider_raises (e : exn) : Prop :=
  | raises_list :
      api_list api video_id = Raise e -> provider_raises e
  | raises_find tl :
      api_list api video_id = Ok tl ->
      find_transcript api tl languages = Raise e ->
      caught_by [NoTranscriptFound] e = false ->
      provider_raises e
  | raises_find_generated tl e0 :
      api_list api video_id = Ok tl ->
      find_transcript api tl languages = Raise e0 ->
      caught_by [NoTranscriptFound] e0 = true ->
      find_generated_transcript api tl languages = Raise e ->
      provider_raises e
  | raises_fetch tl t :
      api_list api video_id = Ok tl ->
      selects tl t ->
      fetch api t preserve_formatting = Raise e ->
      provider_raises e.

End ProviderRaises.

(** A provider whose every call raises [e]. *)
Definition failing_provider (e : exn) : provider unit unit :=
  {| api_list := fun _ => Raise e;
     find_transcript := fun _ _ => Raise e;
     find_generated_transcript := fun _ _ => Raise e;
     fetch := fun _ _ => Raise e |}.

(** What the lookups of the package promise. [find_transcript] searches the
    manually created tracks and the generated ones, [find_generated_transcript]
    the generated ones only, and each raises
    [NoTranscriptFound(video_id, language_codes, transcript_data)] when it
    finds no track: when the first raises it, the second, called on the same
    list with the same languages, raises the same. *)
Definition lookup_contract {TranscriptList Transcript : Type}
    (api : provider TranscriptList Transcript) : Prop :=
  forall tl languages e,
    find_transcript api tl languages = Raise e ->
    caught_by [NoTranscriptFound] e = true ->
    find_generated_transcript api tl languages = Raise e.

Section ProviderCalls.

Context {TranscriptList Transcript : Type}.
Variable api : provider TranscriptList Transcript.
Variables (video_id : pystr) (languages : list pystr)
          (preserve_formatting : bool).

(** A provider call that the handler makes raises [e]: the listing, the
    first lookup, the lookup of generated tracks once the first lookup has
    raised [NoTranscriptFound], or the fetch of the selected track. *)
Inductive provider_call_raises (e : exn) : Prop :=
  | call_list :
      api_list api video_id = Raise e -> provider_call_raises e
  | call_find tl :
      api_list api video_id = Ok tl ->
      find_transcript api tl languages = Raise e ->
      provider_call_raises e
  | call_find_generated tl e0 :
      api_list api video_id = Ok tl ->
      find_transcript api tl languages = Raise e0 ->
      caught_by [NoTranscriptFound] e0 = true ->
      find_generated_transcript api tl languages = Raise e ->
      provider_call_raises e
  | call_fetch tl t :
      api_list api video_id = Ok tl ->
      selects api languages tl t ->
      fetch api t preserve_formatting = Raise e ->
      provider_call_raises e.

End ProviderCalls.

(** ** A provider made of track lists *)

(** The track lists of the package, reduced to what the handler uses: the
    manually created and the generated tracks of a video, each a dictionary
    from language code to track, a track being given by the snippets its
    fetch returns. *)
Record track_list := {
  manually_created : list (pystr * list snippet);
  generated : list (pystr * list snippet)
}.

(** [language_code in transcript_dict] and [transcript_dict[language_code]]. *)
Fixpoint track_of (language_code : pystr)
    (transcript_dict : list (pystr * list snippet)) : option (list snippet) :=
  match transcript_dict with
  | [] => None
  | (code, track) :: rest =>
      if list_eq_dec N.eq_dec language_code code then Some track
      else track_of language_code rest
  end.

Fixpoint first_track (language_code : pystr)
    (transcript_dicts : list (list (pystr * list snippet)))
  : option (list snippet) :=
  match transcript_dicts with
  | [] => None
  | transcript_dict :: rest =>
      match track_of language_code transcript_dict with
      | Some track => Some track
      | None => first_track language_code rest
      end
  end.

(** The search both lookups share: the first language, in the order of
    preference, that one of the dictionaries knows. *)
Fixpoint _find_transcript (language_codes : list pystr)
    (transcript_dicts : list (list (pystr * list snippet)))
  : option (list snippet) :=
  match language_codes with
  | [] => None
  | language_code :: rest =>
      match first_track language_code transcript_dicts with
      | Some track => Some track
      | None => _find_transcript rest transcript_dicts
      end
  end.

(** The provider of the videos that [listing] knows; [not_found] words the
    [NoTranscriptFound] error. *)
Definition tracks_provider (listing : pystr -> result track_list)
    (not_found : track_list -> list pystr -> pystr)
  : provider track_list (list snippet) :=
  {| api_list := listing;
     find_transcript := fun tl language_codes =>
       match _find_transcript language_codes
               [manually_created tl; generated tl] with
       | Some track => Ok track
       | None => Raise {| exn_class := NoTranscriptFound;
                          exn_msg := not_found tl language_codes |}
       end;
     find_generated_transcript := fun tl language_codes =>
       match _find_transcript language_codes [generated tl] with
       | Some track => Ok track
       | None => Raise {| exn_class := NoTranscriptFound;
                          exn_msg := not_found tl language_codes |}
       end;
     fetch := fun track _ => Ok track |}.

(** A video with one manually created English track. *)
Definition english_video (transcript : list snippet) : pystr -> result track_list :=
  fun _ => Ok {| manually_created := [(str "en", transcript)];
                 generated := [] |}.

(** A video with tracks, but none in a language anyone asks for below. *)
Definition welsh_video : pystr -> result track_list :=
  fun _ => Ok {| manually_created := []; generated := [(str "cy", [])] |}.

(** Wordings for the instances: of the [NoTranscriptFound] error, and of
    the errors of a response that cannot be built. *)
Definition not_found_message (tl : track_list) (language_codes : list pystr)
  : pystr :=
  str "No transcripts were found for any of the requested language codes".

Definition any_message (r : response) : pystr :=
  str "the body cannot be encoded".

(* ================================================================== *)
(** * Facts about strings *)
(* ================================================================== *)

Module PyStrFacts.

(** ** Splitting and joining *)

Lemma split_nonempty sep s : split sep s <> [].
Proof.
  destruct s as [|c rest]; simpl; [discriminate|].
  destruct (N.eqb c sep); [discriminate|].
  destruct (split sep rest); discriminate.
Qed.

Lemma join_cons sep p q rest :
  join sep (p :: q :: rest) = p ++ sep ++ join sep (q :: rest).
Proof. reflexivity. Qed.

Lemma join_split sep s : join [sep] (split sep s) = s.
Proof.
  induction s as [|c rest IH]; [reflexivity|].
  simpl split. destruct (N.eqb_spec c sep) as [->|Hne].
  - pose proof (split_nonempty sep rest) as Hn.
    destruct (split sep rest) as [|q qs]; [contradiction|].
    rewrite join_cons, IH. reflexivity.
  - pose proof (split_nonempty sep rest) as Hn.
    destruct (split sep rest) as [|q qs]; [contradiction|].
    destruct qs as [|q' qs].
    + simpl in *. now rewrite IH.
    + rewrite join_cons in *. rewrite <- IH. reflexivity.
Qed.

Lemma split_no_sep sep s : Forall (fun p => ~ In sep p) (split sep s).
Proof.
  induction s as [|c rest IH]; simpl.
  - constructor; [intros []|constructor].
  - destruct (N.eqb_spec c sep) as [->|Hne].
    + constructor; [intros []|exact IH].
    + destruct (split sep rest) as [|q qs].
      * constructor; [|constructor]. intros [H|[]]. now apply Hne.
      * inversion IH as [|? ? Hq Hqs]; subst. constructor; [|exact Hqs].
        intros [H|H]; [now apply Hne|now apply Hq].
Qed.

Lemma split_free sep p : ~ In sep p -> split sep p = [p].
Proof.
  induction p as [|c rest IH]; intros Hp; [reflexivity|].
  simpl. destruct (N.eqb_spec c sep) as [->|Hne].
  - exfalso. apply Hp. now left.
  - rewrite IH; [reflexivity|]. intros H. apply Hp. now right.
Qed.

Lemma split_app_sep sep p s :
  ~ In sep p -> split sep (p ++ sep :: s) = p :: split sep s.
Proof.
  induction p as [|c rest IH]; intros Hp; simpl.
  - now rewrite N.eqb_refl.
  - destruct (N.eqb_spec c sep) as [->|Hne].
    + exfalso. apply Hp. now left.
    + rewrite IH; [reflexivity|]. intros H. apply Hp. now right.
Qed.

(** The pieces of a string are determined by the string. *)
Lemma comma_pieces_split s : comma_pieces s (split comma s).
Proof.
  repeat split.
  - apply split_nonempty.
  - apply join_split.
  - apply split_no_sep.
Qed.

Lemma comma_pieces_unique s pieces :
  comma_pieces s pieces -> pieces = split comma s.
Proof.
  intros (Hne & Hjoin & Hfree). subst s.
  induction pieces as [|p rest IH]; [contradiction|].
  inversion Hfree as [|? ? Hp Hrest]; subst.
  destruct rest as [|q rest].
  - simpl. symmetry. now apply split_free.
  - rewrite join_cons. simpl app. rewrite split_app_sep by exact Hp.
    f_equal. apply IH; [discriminate|exact Hrest].
Qed.

Lemma in_split_in sep s p c : In p (split sep s) -> In c p -> In c s.
Proof.
  revert p. induction s as [|a rest IH]; intros p Hp Hc; simpl in Hp.
  - destruct Hp as [<-|[]]. exact Hc.
  - destruct (N.eqb_spec a sep) as [->|Hne].
    + destruct Hp as [<-|Hp]; [destruct Hc|]. right. eapply IH; eauto.
    + destruct (split sep rest) as [|q qs] eqn:E.
      * now apply split_nonempty in E.
      * destruct Hp as [<-|Hp].
        -- destruct Hc as [<-|Hc]; [now left|]. right. apply (IH q); [now left|exact Hc].
        -- right. apply (IH p); [now right|exact Hc].
Qed.

Lemma in_in_split sep s c :
  In c s -> c <> sep -> exists p, In p (split sep s) /\ In c p.
Proof.
  induction s as [|a rest IH]; intros Hc Hne; [destruct Hc|].
  simpl. destruct (N.eqb_spec a sep) as [->|Ha].
  - destruct Hc as [->|Hc]; [congruence|].
    destruct (IH Hc Hne) as (p & Hp & Hcp). exists p. split; [now right|exact Hcp].
  - pose proof (split_nonempty sep rest) as Hn.
    destruct (split sep rest) as [|q qs]; [contradiction|].
    destruct Hc as [->|Hc].
    + exists (c :: q). split; now left.
    + destruct (IH Hc Hne) as (p & [<-|Hp] & Hcp).
      * exists (a :: q). split; [now left|now right].
      * exists p. split; [now right|exact Hcp].
Qed.

(** ** Stripping *)

Lemma lstrip_spaces l s : forallb is_space l = true -> lstrip (l ++ s) = lstrip s.
Proof.
  induction l as [|c l IH]; intros H; [reflexivity|].
  simpl in *. apply andb_prop in H as [Hc Hl]. rewrite Hc. now apply IH.
Qed.

Lemma lstrip_all_space s : forallb is_space s = true -> lstrip s = [].
Proof.
  intros H. rewrite <- (app_nil_r s). now rewrite lstrip_spaces.
Qed.

Lemma lstrip_head s c : hd_error s = Some c -> is_space c = false -> lstrip s = s.
Proof.
  destruct s as [|a rest]; [discriminate|]. simpl. intros [= ->] ->. reflexivity.
Qed.

Lemma lstrip_decompose s :
  exists l, s = l ++ lstrip s /\ forallb is_space l = true
            /\ (forall c, hd_error (lstrip s) = Some c -> is_space c = false).
Proof.
  induction s as [|a rest (l & Hs & Hl & Hh)].
  - exists []. repeat split. discriminate.
  - simpl. destruct (is_space a) eqn:Ea.
    + exists (a :: l). simpl. rewrite Ea, Hl. repeat split; [|exact Hh].
      now rewrite <- Hs.
    + exists []. repeat split. simpl. intros c [= <-]. exact Ea.
Qed.

Lemma forallb_rev {A} (f : A -> bool) l : forallb f (rev l) = forallb f l.
Proof.
  induction l as [|a l IH]; [reflexivity|].
  simpl. rewrite forallb_app, IH. simpl. rewrite andb_true_r. apply andb_comm.
Qed.

Lemma rstrip_spaces s r : forallb is_space r = true -> rstrip (s ++ r) = rstrip s.
Proof.
  intros H. unfold rstrip. rewrite rev_app_distr, lstrip_spaces; [reflexivity|].
  now rewrite forallb_rev.
Qed.

Lemma rstrip_last s c :
  hd_error (rev s) = Some c -> is_space c = false -> rstrip s = s.
Proof.
  intros Hh Hc. unfold rstrip. rewrite (lstrip_head _ _ Hh Hc). apply rev_involutive.
Qed.

Lemma rstrip_nil : rstrip [] = [].
Proof. reflexivity. Qed.

Lemma rstrip_decompose s :
  exists r, s = rstrip s ++ r /\ forallb is_space r = true
            /\ (forall c, hd_error (rev (rstrip s)) = Some c -> is_space c = false).
Proof.
  destruct (lstrip_decompose (rev s)) as (l & Hs & Hl & Hh).
  exists (rev l). unfold rstrip. rewrite rev_involutive. repeat split.
  - rewrite <- rev_app_distr, <- Hs. symmetry. apply rev_involutive.
  - now rewrite forallb_rev.
  - exact Hh.
Qed.

Lemma rstrip_idempotent s : rstrip (rstrip s) = rstrip s.
Proof.
  destruct (rstrip_decompose s) as (r & _ & _ & Hh).
  destruct (rev (rstrip s)) as [|c t] eqn:E.
  - apply (f_equal (@rev _)) in E. rewrite rev_involutive in E. rewrite E. reflexivity.
  - apply (rstrip_last _ c); [now rewrite E|apply Hh; reflexivity].
Qed.

(** What [rstrip] keeps of a string that starts with a non-space. *)
Lemma rstrip_keeps_head s c :
  hd_error s = Some c -> is_space c = false -> hd_error (rstrip s) = Some c.
Proof.
  intros Hh Hc. destruct (rstrip_decompose s) as (r & Hs & Hr & _).
  destruct (rstrip s) as [|a t] eqn:E.
  - simpl in Hs. subst s. destruct r as [|b r]; [discriminate|].
    simpl in *. injection Hh as ->. apply andb_prop in Hr as [Hb _]. congruence.
  - rewrite Hs in Hh. exact Hh.
Qed.

Lemma strip_trimmed p : trimmed p (strip p).
Proof.
  unfold strip.
  destruct (lstrip_decompose p) as (l & Hp & Hl & Hh).
  destruct (rstrip_decompose (lstrip p)) as (r & Hq & Hr & Ht).
  exists l, r. repeat split; try assumption.
  - rewrite <- Hq. exact Hp.
  - intros c Hc. destruct (lstrip p) as [|a t] eqn:E.
    + rewrite rstrip_nil in Hc. discriminate.
    + assert (Ha : is_space a = false) by (apply Hh; reflexivity).
      rewrite (rstrip_keeps_head (a :: t) a eq_refl Ha) in Hc.
      injection Hc as <-. exact Ha.
Qed.

Lemma trimmed_unique p t : trimmed p t -> t = strip p.
Proof.
  intros (l & r & -> & Hl & Hr & Hh & Ht). unfold strip.
  rewrite lstrip_spaces by exact Hl.
  destruct t as [|a t'].
  - simpl. rewrite lstrip_all_space by exact Hr. reflexivity.
  - rewrite (lstrip_head ((a :: t') ++ r) a eq_refl (Hh a eq_refl)).
    rewrite rstrip_spaces by exact Hr.
    destruct (rev (a :: t')) as [|c u] eqn:E.
    + apply (f_equal (@length _)) in E. rewrite length_rev in E. discriminate.
    + symmetry. apply (rstrip_last _ c); [now rewrite E|apply Ht; reflexivity].
Qed.

Lemma strip_empty_iff s : strip s = [] <-> forallb is_space s = true.
Proof.
  split.
  - intros E. destruct (strip_trimmed s) as (l & r & Hs & Hl & Hr & _).
    rewrite E in Hs. rewrite Hs. simpl. rewrite forallb_app, Hl, Hr. reflexivity.
  - intros H. unfold strip. rewrite lstrip_all_space by exact H. reflexivity.
Qed.

Lemma is_space_nl : forallb is_space nl = true.
Proof. reflexivity. Qed.

End PyStrFacts.

(* ================================================================== *)
(** * The language-preference parser *)
(* ================================================================== *)

Lemma lower_ascii_only_spec : lower_spec lower_ascii_only.
Proof.
  split.
  - intros s _. reflexivity.
  - intros [|c s]; [reflexivity|discriminate].
Qed.

Section ParserFacts.

Variable str_lower : pystr -> pystr.
Hypothesis lower_ok : lower_spec str_lower.

Lemma lower_nil : str_lower [] = [].
Proof. destruct lower_ok as [Hascii _]. now rewrite Hascii. Qed.

Lemma truthy_lower s : truthy (str_lower s) = truthy s.
Proof.
  destruct s as [|c s]; [now rewrite lower_nil|].
  destruct (str_lower (c :: s)) eqn:E; [|reflexivity].
  destruct lower_ok as [_ Hne]. now apply Hne in E.
Qed.

(** Dropping after lowercasing is dropping after trimming. *)
Lemma filter_lowered pieces :
  filter truthy (map (fun code => str_lower (strip code)) pieces)
  = map str_lower (filter truthy (map strip pieces)).
Proof.
  induction pieces as [|p rest IH]; [reflexivity|].
  simpl. rewrite truthy_lower. destruct (truthy (strip p)); simpl; now rewrite IH.
Qed.

Lemma parse_languages_some s :
  s <> [] ->
  _parse_languages str_lower (Some s)
  = map str_lower (filter truthy (map strip (split comma s))).
Proof.
  intros Hs. destruct s as [|c s]; [contradiction|].
  unfold _parse_languages. cbn [truthy negb]. apply filter_lowered.
Qed.

Lemma trimmed_pieces_strip pieces trimmed_pieces :
  Forall2 trimmed pieces trimmed_pieces -> trimmed_pieces = map strip pieces.
Proof.
  induction 1 as [|p t ps ts Hpt _ IH]; [reflexivity|].
  simpl. f_equal; [now apply PyStrFacts.trimmed_unique|exact IH].
Qed.

Lemma strip_pieces_trimmed pieces : Forall2 trimmed pieces (map strip pieces).
Proof.
  induction pieces; simpl; constructor; [apply PyStrFacts.strip_trimmed|assumption].
Qed.

Lemma truthy_strip_iff p :
  truthy (strip p) = true <-> exists c, In c p /\ is_space c = false.
Proof.
  split.
  - intros Ht. destruct (forallb is_space p) eqn:E.
    + apply PyStrFacts.strip_empty_iff in E. rewrite E in Ht. discriminate.
    + assert (H : existsb (fun c => negb (is_space c)) p = true).
      { clear Ht. induction p as [|a p IH]; [discriminate|]. simpl in *.
        destruct (is_space a); [now apply IH|reflexivity]. }
      apply existsb_exists in H as (c & Hc & Hs). exists c. split; [exact Hc|].
      now destruct (is_space c).
  - intros (c & Hc & Hs). destruct (strip p) eqn:E; [|reflexivity].
    apply PyStrFacts.strip_empty_iff in E.
    rewrite forallb_forall in E. rewrite (E c Hc) in Hs. discriminate.
Qed.

Lemma parse_languages_entry_iff s :
  s <> [] ->
  ((1 <= length (_parse_languages str_lower (Some s)))%nat
   <-> names_a_language s = true).
Proof.
  intros Hs. rewrite (parse_languages_some s Hs), length_map.
  unfold names_a_language. rewrite existsb_exists. split.
  - intros Hlen.
    destruct (filter truthy (map strip (split comma s))) as [|t ts] eqn:E;
      [simpl in Hlen; lia|].
    assert (Hin : In t (filter truthy (map strip (split comma s))))
      by (rewrite E; now left).
    apply filter_In in Hin as [Hin Ht].
    apply in_map_iff in Hin as (p & <- & Hp).
    apply truthy_strip_iff in Ht as (c & Hc & Hsp).
    exists c. split; [eapply PyStrFacts.in_split_in; eauto|].
    rewrite Hsp. simpl. rewrite andb_true_r. apply negb_true_iff.
    apply N.eqb_neq. intros ->.
    pose proof (PyStrFacts.split_no_sep comma s) as Hfree.
    rewrite Forall_forall in Hfree. exact (Hfree p Hp Hc).
  - intros (c & Hc & Hcond). apply andb_prop in Hcond as [Hne Hsp].
    apply negb_true_iff in Hne, Hsp. apply N.eqb_neq in Hne.
    destruct (PyStrFacts.in_in_split comma s c Hc Hne) as (p & Hp & Hcp).
    assert (Hin : In (strip p) (filter truthy (map strip (split comma s)))).
    { apply filter_In. split; [now apply in_map|].
      apply truthy_strip_iff. now exists c. }
    destruct (filter truthy (map strip (split comma s))); [destruct Hin|simpl; lia].
Qed.

End ParserFacts.

(** C3, as amended. Absent and empty input give the one-entry list
    [["en"]]. Any other input gives a list with at least one entry exactly
    when it names a language, that is, when it holds a character that is
    neither a comma nor whitespace; otherwise every piece is dropped and the
    list is empty. *)
Theorem parse_languages_has_entry_iff
    (str_lower : pystr -> pystr) (lower_ok : lower_spec str_lower) :
  _parse_languages str_lower None = [str "en"]
  /\ _parse_languages str_lower (Some []) = [str "en"]
  /\ forall s, s <> [] ->
       ((1 <= length (_parse_languages str_lower (Some s)))%nat
        <-> names_a_language s = true)
       /\ (names_a_language s = false ->
           _parse_languages str_lower (Some s) = []).
Proof.
  split; [reflexivity|]. split; [reflexivity|].
  intros s Hs. pose proof (parse_languages_entry_iff str_lower lower_ok s Hs) as Hiff.
  split; [exact Hiff|].
  intros Hno. destruct (_parse_languages str_lower (Some s)) as [|x xs]; [reflexivity|].
  assert (H : names_a_language s = true) by (apply Hiff; simpl; lia).
  congruence.
Qed.

(** The theorem at ["de,en"]. *)
Lemma parse_languages_has_entry_iff_witness :
  lower_spec lower_ascii_only
  /\ (1 <= length (_parse_languages lower_ascii_only (Some (str "de,en"))))%nat.
Proof.
  split; [exact lower_ascii_only_spec|].
  apply (parse_languages_has_entry_iff lower_ascii_only lower_ascii_only_spec).
  - discriminate.
  - reflexivity.
Defined.

(** C3 fails on a lone comma: the input is neither absent nor empty, both
    pieces are empty and are dropped, and no fallback is applied. *)
Lemma parse_languages_lone_comma :
  _parse_languages lower_ascii_only (Some (str ",")) = []
  /\ length (_parse_languages lower_ascii_only (Some (str " , "))) = 0%nat.
Proof. split; reflexivity. Qed.

(** C4. Absent and empty input give [["en"]]. For any other input [s], take
    its comma-separated pieces in order and trim each: the result is those
    trimmed pieces, without the empty ones, each lowercased. Such pieces and
    their trimmed forms exist for every input, so the parser is defined
    everywhere. ["DE, en ,"] gives [["de"; "en"]]. *)
Theorem parse_languages_spec
    (str_lower : pystr -> pystr) (lower_ok : lower_spec str_lower) :
  _parse_languages str_lower None = [str "en"]
  /\ _parse_languages str_lower (Some []) = [str "en"]
  /\ (forall s, exists pieces trimmed_pieces,
        comma_pieces s pieces /\ Forall2 trimmed pieces trimmed_pieces)
  /\ (forall s pieces trimmed_pieces,
        s <> [] ->
        comma_pieces s pieces ->
        Forall2 trimmed pieces trimmed_pieces ->
        _parse_languages str_lower (Some s)
        = map str_lower (filter truthy trimmed_pieces))
  /\ _parse_languages str_lower (Some (str "DE, en ,")) = [str "de"; str "en"].
Proof.
  split; [reflexivity|]. split; [reflexivity|]. split; [|split].
  - intros s. exists (split comma s), (map strip (split comma s)).
    split; [apply PyStrFacts.comma_pieces_split|apply strip_pieces_trimmed].
  - intros s pieces tp Hs Hp Ht.
    rewrite (parse_languages_some str_lower lower_ok s Hs).
    apply PyStrFacts.comma_pieces_unique in Hp. subst pieces.
    now rewrite (trimmed_pieces_strip _ _ Ht).
  - rewrite (parse_languages_some str_lower lower_ok) by discriminate.
    destruct lower_ok as [Hascii _]. cbn.
    rewrite !Hascii by reflexivity. reflexivity.
Qed.

(** The theorem at ["DE, en ,"], with ASCII lowercasing for [str.lower]:
    the pieces are ["DE"], [" en "] and [""], trimmed to ["DE"], ["en"] and
    [""]. *)
Lemma parse_languages_spec_witness :
  lower_spec lower_ascii_only
  /\ str "DE, en ," <> []
  /\ comma_pieces (str "DE, en ,") [str "DE"; str " en "; []]
  /\ Forall2 trimmed [str "DE"; str " en "; []] [str "DE"; str "en"; []]
  /\ _parse_languages lower_ascii_only (Some (str "DE, en ,"))
     = map lower_ascii_only (filter truthy [str "DE"; str "en"; []]).
Proof.
  assert (Hs : str "DE, en ," <> []) by discriminate.
  assert (Hp : comma_pieces (str "DE, en ,") [str "DE"; str " en "; []]).
  { split; [discriminate|]. split; [reflexivity|].
    repeat constructor; cbn; intros H;
      repeat (destruct H as [H|H]; [discriminate H|]); exact H. }
  assert (Ht : Forall2 trimmed [str "DE"; str " en "; []]
                 [str "DE"; str "en"; []]).
  { repeat constructor.
    - exists [], []. repeat split; intros c [= <-]; reflexivity.
    - exists (str " "), (str " "). repeat split; intros c [= <-]; reflexivity.
    - exists [], []. repeat split; intros c [=]. }
  split; [exact lower_ascii_only_spec|]. split; [exact Hs|].
  split; [exact Hp|]. split; [exact Ht|].
  exact (proj1 (proj2 (proj2 (proj2
           (parse_languages_spec lower_ascii_only lower_ascii_only_spec))))
           (str "DE, en ,") _ _ Hs Hp Ht).
Defined.

(* ================================================================== *)
(** * Decimal rendering *)
(* ================================================================== *)

Module DigitsFacts.

Lemma div10_lt_pow2 n k : 0 <= n -> n < 2 ^ Z.succ k -> 0 <= k -> n / 10 < 2 ^ k.
Proof.
  intros Hn Hlt Hk. rewrite Z.pow_succ_r in Hlt by exact Hk.
  apply Z.div_lt_upper_bound; lia.
Qed.

Lemma digits_fuel_S f n acc :
  digits_fuel (S f) n acc
  = if n <? 10 then digit_char (n mod 10) :: acc
    else digits_fuel f (n / 10) (digit_char (n mod 10) :: acc).
Proof. reflexivity. Qed.

(** Fuel beyond the binary length of the number changes nothing. *)
Lemma digits_fuel_indep f1 : forall f2 n acc,
  0 <= n -> n < 2 ^ Z.of_nat (S f1) -> n < 2 ^ Z.of_nat (S f2) ->
  digits_fuel (S f1) n acc = digits_fuel (S f2) n acc.
Proof.
  induction f1 as [|f1 IH]; intros f2 n acc Hn H1 H2.
  - assert (n < 10) by (change (2 ^ Z.of_nat 1) with 2 in H1; lia).
    simpl. destruct (Z.ltb_spec n 10); [reflexivity|lia].
  - rewrite (digits_fuel_S (S f1)), (digits_fuel_S f2).
    destruct (Z.ltb_spec n 10) as [|Hge]; [reflexivity|].
    destruct f2 as [|f2].
    + change (2 ^ Z.of_nat 1) with 2 in H2. lia.
    + apply IH.
      * apply Z.div_pos; lia.
      * rewrite Nat2Z.inj_succ in H1. apply div10_lt_pow2; lia.
      * rewrite Nat2Z.inj_succ in H2. apply div10_lt_pow2; lia.
Qed.

Lemma digits_fuel_acc f : forall n acc,
  0 <= n -> n < 2 ^ Z.of_nat (S f) ->
  digits_fuel (S f) n acc = digits_fuel (S f) n [] ++ acc.
Proof.
  induction f as [|f IH]; intros n acc Hn Hlt.
  - simpl. destruct (n <? 10); reflexivity.
  - rewrite !(digits_fuel_S (S f)).
    destruct (Z.ltb_spec n 10) as [|Hge]; [reflexivity|].
    assert (H0 : 0 <= n / 10) by (apply Z.div_pos; lia).
    assert (H1 : n / 10 < 2 ^ Z.of_nat (S f))
      by (rewrite Nat2Z.inj_succ in Hlt; apply div10_lt_pow2; lia).
    rewrite (IH _ (_ :: acc) H0 H1), (IH _ [_] H0 H1), <- app_assoc.
    reflexivity.
Qed.

Lemma lt_pow2_fuel n : 0 <= n -> n < 2 ^ Z.of_nat (S (Z.to_nat (Z.log2 n))).
Proof.
  intros Hn. rewrite Nat2Z.inj_succ, Z2Nat.id by apply Z.log2_nonneg.
  destruct (Z.eq_dec n 0) as [->|Hne]; [reflexivity|].
  apply Z.log2_spec. lia.
Qed.

Lemma digits_small n : 0 <= n < 10 -> digits n = [digit_char n].
Proof.
  intros Hn. unfold digits. rewrite digits_fuel_S.
  destruct (Z.ltb_spec n 10); [|lia]. now rewrite Z.mod_small.
Qed.

Lemma digits_step n :
  10 <= n -> digits n = digits (n / 10) ++ [digit_char (n mod 10)].
Proof.
  intros Hn. unfold digits at 1.
  pose proof (lt_pow2_fuel n ltac:(lia)) as Hfuel.
  rewrite digits_fuel_S. destruct (Z.ltb_spec n 10); [lia|].
  destruct (Z.to_nat (Z.log2 n)) as [|k] eqn:Ek.
  - change (2 ^ Z.of_nat 1) with 2 in Hfuel. lia.
  - assert (H0 : 0 <= n / 10) by (apply Z.div_pos; lia).
    assert (H1 : n / 10 < 2 ^ Z.of_nat (S k))
      by (rewrite Nat2Z.inj_succ in Hfuel; apply div10_lt_pow2; lia).
    rewrite (digits_fuel_acc k _ [_] H0 H1). f_equal.
    apply digits_fuel_indep; [exact H0|exact H1|now apply lt_pow2_fuel].
Qed.

(** Induction along the digits of a number. *)
Lemma digits_ind (P : Z -> pystr -> Prop) :
  (forall n, 0 <= n < 10 -> P n [digit_char n]) ->
  (forall n, 10 <= n -> P (n / 10) (digits (n / 10)) ->
             P n (digits (n / 10) ++ [digit_char (n mod 10)])) ->
  forall n, 0 <= n -> P n (digits n).
Proof.
  intros Hsmall Hstep n Hn. pattern n. apply (Zlt_0_ind); [|exact Hn].
  clear n Hn. intros n IH Hn.
  destruct (Z_lt_le_dec n 10) as [Hlt|Hge].
  - rewrite digits_small by lia. apply Hsmall. lia.
  - rewrite digits_step by exact Hge. apply Hstep; [exact Hge|].
    apply IH. split; [apply Z.div_pos; lia|apply Z.div_lt; lia].
Qed.

Lemma digits_value_app s c :
  digits_value (s ++ [c]) = 10 * digits_value s + (Z.of_N c - 48).
Proof. unfold digits_value. now rewrite fold_left_app. Qed.

Lemma digit_char_value d : 0 <= d < 10 -> Z.of_N (digit_char d) - 48 = d.
Proof. intros Hd. unfold digit_char, zero_digit. lia. Qed.

Lemma digit_char_is_digit d : 0 <= d < 10 -> is_digit (digit_char d) = true.
Proof.
  intros Hd. unfold is_digit, in_range, digit_char, zero_digit.
  apply andb_true_intro. split; apply N.leb_le; lia.
Qed.

(** Reading back the digits of [n] gives [n]. *)
Lemma digits_value_digits n : 0 <= n -> digits_value (digits n) = n.
Proof.
  apply (digits_ind (fun n s => digits_value s = n)).
  - intros m Hm. unfold digits_value. simpl. rewrite digit_char_value; lia.
  - intros m Hm IH. rewrite digits_value_app, IH, digit_char_value.
    + pose proof (Z.div_mod m 10). lia.
    + apply Z.mod_pos_bound. lia.
Qed.

Lemma digits_all_digits n : 0 <= n -> forallb is_digit (digits n) = true.
Proof.
  apply (digits_ind (fun _ s => forallb is_digit s = true)).
  - intros m Hm. simpl. now rewrite digit_char_is_digit.
  - intros m Hm IH. rewrite forallb_app, IH. simpl.
    rewrite digit_char_is_digit; [reflexivity|apply Z.mod_pos_bound; lia].
Qed.

Lemma digits_not_nil n : 0 <= n -> (1 <= length (digits n))%nat.
Proof.
  apply (digits_ind (fun _ s => (1 <= length s)%nat)).
  - intros. simpl. lia.
  - intros m Hm IH. rewrite length_app. simpl. lia.
Qed.

(** A positive number has no leading zero. *)
Lemma digits_head n : 0 < n -> hd_error (digits n) <> Some zero_digit.
Proof.
  intros Hn. assert (H0 : 0 <= n) by lia. revert Hn.
  apply (digits_ind (fun n s => 0 < n -> hd_error s <> Some zero_digit));
    [| |exact H0].
  - intros m Hm Hpos E.
    assert (E' : digit_char m = zero_digit) by (simpl in E; congruence).
    pose proof (digit_char_value m Hm) as Hv. rewrite E' in Hv.
    change (Z.of_N zero_digit) with 48 in Hv. lia.
  - intros m Hm IH _.
    assert (Hq : 0 < m / 10) by (apply Z.div_str_pos; lia).
    pose proof (digits_not_nil (m / 10) ltac:(lia)) as Hlen.
    destruct (digits (m / 10)) as [|a t]; [simpl in Hlen; lia|].
    simpl. apply (IH Hq).
Qed.

(** A number has at most [k + 1] digits exactly when it is below
    [10 ^ (k + 1)]. *)
Lemma digits_length_le k : forall n,
  0 <= n -> ((length (digits n) <= S k)%nat <-> n < 10 ^ Z.of_nat (S k)).
Proof.
  induction k as [|k IH]; intros n Hn.
  - change (10 ^ Z.of_nat 1) with 10.
    destruct (Z_lt_le_dec n 10) as [Hlt|Hge].
    + rewrite digits_small by lia. simpl. split; intros; lia.
    + rewrite digits_step by exact Hge. rewrite length_app. simpl.
      pose proof (digits_not_nil (n / 10) ltac:(apply Z.div_pos; lia)).
      split; intros; lia.
  - rewrite (Nat2Z.inj_succ (S k)), Z.pow_succ_r by lia.
    destruct (Z_lt_le_dec n 10) as [Hlt|Hge].
    + rewrite digits_small by lia. cbn [length].
      assert (0 < 10 ^ Z.of_nat (S k)) by (apply Z.pow_pos_nonneg; lia).
      split; intros; lia.
    + rewrite digits_step by exact Hge. rewrite length_app. cbn [length].
      assert (H0 : 0 <= n / 10) by (apply Z.div_pos; lia).
      specialize (IH (n / 10) H0).
      pose proof (Z.div_mod n 10 ltac:(lia)).
      pose proof (Z.mod_pos_bound n 10 ltac:(lia)).
      split; intros H'.
      * assert (n / 10 < 10 ^ Z.of_nat (S k)) by (apply IH; lia). lia.
      * assert ((length (digits (n / 10)) <= S k)%nat) by (apply IH; lia). lia.
Qed.

(** ** Zero padding *)

Lemma digits_value_zeros k s :
  digits_value (repeat zero_digit k ++ s) = digits_value s.
Proof.
  unfold digits_value. rewrite fold_left_app. f_equal.
  induction k as [|k IH]; [reflexivity|]. simpl. exact IH.
Qed.

Lemma forallb_zeros k : forallb is_digit (repeat zero_digit k) = true.
Proof. induction k; [reflexivity|exact IHk]. Qed.

Lemma zfill_length w s : length (zfill w s) = Nat.max w (length s).
Proof. unfold zfill. rewrite length_app, repeat_length. lia. Qed.

Lemma format_0d_nonneg w n : 0 <= n -> format_0d w n = zfill w (digits n).
Proof. intros Hn. unfold format_0d. destruct (Z.ltb_spec n 0); [lia|reflexivity]. Qed.

Lemma format_0d_length w n :
  0 <= n -> length (format_0d w n) = Nat.max w (length (digits n)).
Proof. intros Hn. rewrite format_0d_nonneg by exact Hn. apply zfill_length. Qed.

(** The f-string fields are zero-padded decimal renderings. *)
Lemma format_0d_zero_padded w n :
  (1 <= w)%nat -> 0 <= n -> zero_padded w n (format_0d w n).
Proof.
  intros Hw Hn. rewrite format_0d_nonneg by exact Hn. unfold zero_padded.
  rewrite zfill_length. unfold zfill.
  rewrite forallb_app, forallb_zeros, digits_all_digits, digits_value_zeros,
    digits_value_digits by exact Hn.
  repeat split; [lia|].
  intros Hlong. replace (w - length (digits n))%nat with 0%nat by lia. simpl.
  apply digits_head.
  destruct (Z_lt_le_dec n 10) as [Hlt|Hge]; [|lia].
  rewrite digits_small in Hlong by lia. simpl in Hlong. lia.
Qed.

(** A field of width [w] is exactly [w] characters long as long as the
    number is below [10 ^ w]. *)
Lemma format_0d_exact_width w n :
  (1 <= w)%nat -> 0 <= n ->
  (length (format_0d w n) = w <-> n < 10 ^ Z.of_nat w).
Proof.
  intros Hw Hn. rewrite format_0d_length by exact Hn.
  destruct w as [|k]; [lia|].
  pose proof (digits_length_le k n Hn). split; intros; lia.
Qed.

(** ** Reading digits back *)

Lemma digits_value_cons c t :
  digits_value (c :: t)
  = (Z.of_N c - 48) * 10 ^ Z.of_nat (length t) + digits_value t.
Proof.
  unfold digits_value. cbn [fold_left].
  replace (10 * 0 + (Z.of_N c - 48)) with (Z.of_N c - 48) by lia.
  generalize (Z.of_N c - 48) as a. induction t as [|d t IH]; intros a.
  - cbn [fold_left length]. change (10 ^ Z.of_nat 0) with 1. lia.
  - cbn [fold_left length]. rewrite IH, (IH (10 * 0 + _)).
    rewrite Nat2Z.inj_succ, Z.pow_succ_r by lia. ring.
Qed.

Lemma is_digit_range c : is_digit c = true -> 0 <= Z.of_N c - 48 <= 9.
Proof.
  unfold is_digit, in_range. intros H. apply andb_prop in H as [H1 H2].
  apply N.leb_le in H1, H2. lia.
Qed.

Lemma digits_value_bound s :
  forallb is_digit s = true ->
  0 <= digits_value s < 10 ^ Z.of_nat (length s).
Proof.
  induction s as [|c t IH]; intros Hall.
  - unfold digits_value. simpl. lia.
  - cbn [forallb] in Hall. apply andb_prop in Hall as [Hc Ht].
    specialize (IH Ht). apply is_digit_range in Hc.
    rewrite digits_value_cons. cbn [length].
    rewrite Nat2Z.inj_succ, Z.pow_succ_r by lia.
    set (P := 10 ^ Z.of_nat (length t)) in *.
    assert (0 <= (Z.of_N c - 48) * P) by (apply Z.mul_nonneg_nonneg; lia).
    assert ((Z.of_N c - 48) * P <= 9 * P)
      by (apply Z.mul_le_mono_nonneg_r; lia).
    lia.
Qed.

(** Two strings of digits of the same length and value are equal. *)
Lemma digits_value_inj s1 : forall s2,
  length s1 = length s2 ->
  forallb is_digit s1 = true -> forallb is_digit s2 = true ->
  digits_value s1 = digits_value s2 -> s1 = s2.
Proof.
  induction s1 as [|c1 t1 IH]; intros [|c2 t2] Hlen H1 H2 Hv;
    try discriminate; [reflexivity|].
  cbn [forallb] in H1, H2.
  apply andb_prop in H1 as [Hc1 Ht1]. apply andb_prop in H2 as [Hc2 Ht2].
  injection Hlen as Hlen.
  rewrite !digits_value_cons, <- Hlen in Hv.
  pose proof (digits_value_bound t1 Ht1) as B1.
  pose proof (digits_value_bound t2 Ht2) as B2. rewrite <- Hlen in B2.
  apply is_digit_range in Hc1, Hc2.
  set (P := 10 ^ Z.of_nat (length t1)) in *.
  assert (Hd : Z.of_N c1 - 48 = Z.of_N c2 - 48) by nia.
  assert (c1 = c2) by lia. subst c2.
  f_equal. apply IH; try assumption. lia.
Qed.

(** A string of digits that starts with a non-zero digit denotes a number
    with that many digits. *)
Lemma digits_value_leading s c t :
  s = c :: t -> forallb is_digit s = true -> c <> zero_digit ->
  10 ^ Z.of_nat (length t) <= digits_value s.
Proof.
  intros -> Hall Hc. cbn [forallb] in Hall.
  apply andb_prop in Hall as [Hd Ht].
  pose proof (digits_value_bound t Ht) as B. apply is_digit_range in Hd.
  rewrite digits_value_cons.
  assert (1 <= Z.of_N c - 48).
  { unfold zero_digit in Hc. assert (Z.of_N c <> 48) by lia. lia. }
  set (P := 10 ^ Z.of_nat (length t)) in *. nia.
Qed.

(** [zero_padded] pins the string down. *)
Lemma zero_padded_unique w n s1 s2 :
  zero_padded w n s1 -> zero_padded w n s2 -> s1 = s2.
Proof.
  assert (Hshort : forall a b,
            zero_padded w n a -> zero_padded w n b ->
            (length a < length b)%nat -> False).
  { intros a b (Da & Va & Wa & _) (Db & Vb & Wb & Hb) Hlt.
    destruct b as [|c t]; [simpl in Hlt; lia|].
    assert (Hc : c <> zero_digit).
    { intros ->. apply Hb; [lia|reflexivity]. }
    pose proof (digits_value_leading (c :: t) c t eq_refl Db Hc) as Hlow.
    pose proof (digits_value_bound a Da) as Hup.
    assert (10 ^ Z.of_nat (length a) <= 10 ^ Z.of_nat (length t)).
    { apply Z.pow_le_mono_r; [lia|]. cbn [length] in Hlt. lia. }
    lia. }
  intros Z1 Z2.
  destruct (Nat.lt_trichotomy (length s1) (length s2)) as [Hlt|[Heq|Hgt]].
  - exfalso. exact (Hshort s1 s2 Z1 Z2 Hlt).
  - destruct Z1 as (D1 & V1 & _), Z2 as (D2 & V2 & _).
    apply digits_value_inj; try assumption. congruence.
  - exfalso. exact (Hshort s2 s1 Z2 Z1 Hgt).
Qed.

End DigitsFacts.

(* ================================================================== *)
(** * Rounding a float to milliseconds *)
(* ================================================================== *)

Module Float64Facts.

Import Float64.

Lemma thousand : of_Z 1000 = S754_finite false 8796093022208000 (-43).
Proof. reflexivity. Qed.

(** Rounding a product keeps the sign it was given. *)
Lemma binary_round_aux_sign s m e l :
  match binary_round_aux prec emax s m e l with
  | S754_finite s' _ _ => s' = s
  | _ => True
  end.
Proof.
  unfold binary_round_aux.
  destruct (shr_fexp prec emax m e l) as [mrs' e'].
  destruct (shr_fexp prec emax _ e' loc_Exact) as [mrs'' e''].
  destruct (shr_m mrs''); [exact I| |exact I].
  destruct (e'' <=? emax - prec); [reflexivity|exact I].
Qed.

Lemma mul_thousand_sign x s m e :
  is_nonneg x = true -> mul x (of_Z 1000) = S754_finite s m e -> s = false.
Proof.
  rewrite thousand. intros Hx. destruct x as [sx|sx| |sx mx ex]; try discriminate.
  simpl in Hx. apply negb_true_iff in Hx. subst sx.
  unfold mul, SFmul. cbn [xorb]. intros E.
  pose proof (binary_round_aux_sign false
                (Z.pos (mx * 8796093022208000)) (ex + -43) loc_Exact) as H.
  rewrite E in H. exact H.
Qed.

Lemma nearest_even_nonneg m e : 0 <= nearest_even m e.
Proof.
  unfold nearest_even. destruct (0 <=? e) eqn:He.
  - apply Z.leb_le in He. apply Z.mul_nonneg_nonneg; [lia|].
    apply Z.pow_nonneg. lia.
  - apply Z.leb_gt in He.
    assert (Hd : 0 < 2 ^ (- e)) by (apply Z.pow_pos_nonneg; lia).
    assert (Hq : 0 <= Z.pos m / 2 ^ (- e)) by (apply Z.div_pos; lia).
    cbv zeta. destruct (_ ?= _); [destruct (Z.even _)| |]; lia.
Qed.

(** [nearest_even m e] is an integer nearest to [m * 2^e], and the even one
    of the two when [m * 2^e] lies half-way: with [d = 2^(-e)] for a
    negative [e], the distance [|k * d - m|] is at most [d / 2]. *)
Lemma nearest_even_spec m e :
  let k := nearest_even m e in
  (0 <= e -> k = Z.pos m * 2 ^ e)
  /\ (e < 0 ->
      let d := 2 ^ (- e) in
      2 * Z.abs (k * d - Z.pos m) <= d
      /\ (2 * Z.abs (k * d - Z.pos m) = d -> Z.even k = true)).
Proof.
  cbv zeta. unfold nearest_even. split.
  - intros He. apply Z.leb_le in He. now rewrite He.
  - intros He. destruct (Z.leb_spec 0 e) as [|_]; [lia|].
    assert (Hd : 0 < 2 ^ (- e)) by (apply Z.pow_pos_nonneg; lia).
    set (d := 2 ^ (- e)) in *.
    pose proof (Z.div_mod (Z.pos m) d ltac:(lia)) as Hdm.
    pose proof (Z.mod_pos_bound (Z.pos m) d Hd) as Hr.
    set (q := Z.pos m / d) in *. set (r := Z.pos m mod d) in *.
    destruct (Z.compare_spec (2 * r) d) as [Heq|Hlt|Hgt].
    + destruct (Z.even q) eqn:Hev.
      * replace (q * d - Z.pos m) with (- r) by lia. split; [lia|]. intros _. exact Hev.
      * replace ((q + 1) * d - Z.pos m) with (d - r) by lia. split; [lia|].
        intros _. rewrite Z.even_add, Hev. reflexivity.
    + replace (q * d - Z.pos m) with (- r) by lia. split; lia.
    + replace ((q + 1) * d - Z.pos m) with (d - r) by lia. split; lia.
Qed.

Lemma py_round_raises_iff x :
  (exists e, py_round x = Raise e) <-> is_finite x = false.
Proof.
  destruct x; simpl; split; intros H; try discriminate; try reflexivity;
    try (destruct H; discriminate); eexists; reflexivity.
Qed.

End Float64Facts.

(* ================================================================== *)
(** * The timestamp formatters *)
(* ================================================================== *)

Lemma rounded_ms_nonneg x ms :
  Float64.is_nonneg x = true -> rounded_ms x = Ok ms -> 0 <= ms.
Proof.
  unfold rounded_ms. intros Hx Hms.
  destruct (Float64.mul x (Float64.of_Z 1000)) as [s|s| |s m e] eqn:E;
    simpl in Hms; try discriminate.
  - injection Hms as <-. lia.
  - apply Float64Facts.mul_thousand_sign in E; [|exact Hx]. subst s.
    injection Hms as <-. apply Float64Facts.nearest_even_nonneg.
Qed.

Lemma to_srt_timestamp_ok x ms :
  rounded_ms x = Ok ms ->
  _to_srt_timestamp x
  = Ok (format_0d 2 (ms / 3600000) ++ str ":"
        ++ format_0d 2 ((ms mod 3600000) / 60000) ++ str ":"
        ++ format_0d 2 ((ms mod 60000) / 1000) ++ str ","
        ++ format_0d 3 (ms mod 1000)).
Proof. unfold rounded_ms, _to_srt_timestamp. intros ->. reflexivity. Qed.

Lemma to_vtt_timestamp_ok x ms :
  rounded_ms x = Ok ms ->
  _to_vtt_timestamp x
  = Ok (format_0d 2 (ms / 3600000) ++ str ":"
        ++ format_0d 2 ((ms mod 3600000) / 60000) ++ str ":"
        ++ format_0d 2 ((ms mod 60000) / 1000) ++ str "."
        ++ format_0d 3 (ms mod 1000)).
Proof. unfold rounded_ms, _to_vtt_timestamp. intros ->. reflexivity. Qed.

Lemma timestamps_raise x e :
  rounded_ms x = Raise e ->
  _to_srt_timestamp x = Raise e /\ _to_vtt_timestamp x = Raise e.
Proof.
  unfold rounded_ms, _to_srt_timestamp, _to_vtt_timestamp. intros ->.
  split; reflexivity.
Qed.

(** The fields of a non-negative total are in range and add up to it. *)
Lemma fields_in_range ms :
  0 <= ms ->
  let hours := ms / 3600000 in
  let minutes := (ms mod 3600000) / 60000 in
  let secs := (ms mod 60000) / 1000 in
  let millis := ms mod 1000 in
  ms = ((hours * 60 + minutes) * 60 + secs) * 1000 + millis
  /\ 0 <= hours /\ 0 <= minutes < 60 /\ 0 <= secs < 60 /\ 0 <= millis < 1000.
Proof.
  intros Hms. cbv zeta.
  pose proof (Z.div_mod ms 3600000 ltac:(lia)).
  pose proof (Z.mod_pos_bound ms 3600000 ltac:(lia)).
  pose proof (Z.div_mod (ms mod 3600000) 60000 ltac:(lia)).
  pose proof (Z.mod_pos_bound (ms mod 3600000) 60000 ltac:(lia)).
  pose proof (Z.div_mod ms 60000 ltac:(lia)).
  pose proof (Z.mod_pos_bound ms 60000 ltac:(lia)).
  pose proof (Z.div_mod (ms mod 60000) 1000 ltac:(lia)).
  pose proof (Z.mod_pos_bound (ms mod 60000) 1000 ltac:(lia)).
  pose proof (Z.div_mod ms 1000 ltac:(lia)).
  pose proof (Z.mod_pos_bound ms 1000 ltac:(lia)).
  assert (0 <= ms / 3600000) by (apply Z.div_pos; lia).
  assert (0 <= ms mod 3600000 / 60000 < 60)
    by (split; [apply Z.div_pos; lia|apply Z.div_lt_upper_bound; lia]).
  assert (0 <= ms mod 60000 / 1000 < 60)
    by (split; [apply Z.div_pos; lia|apply Z.div_lt_upper_bound; lia]).
  assert (E1 : (ms mod 3600000) mod 60000 = ms mod 60000).
  { apply Z.mod_mod_divide. exists 60. reflexivity. }
  assert (E2 : (ms mod 60000) mod 1000 = ms mod 1000).
  { apply Z.mod_mod_divide. exists 60. reflexivity. }
  repeat split; lia.
Qed.

Lemma format_0d_chars w n c :
  In c (format_0d w n) -> is_digit c = true \/ c = minus_sign.
Proof.
  assert (Hz : forall k m, 0 <= m -> In c (zfill k (digits m)) -> is_digit c = true).
  { intros k m Hm Hin.
    assert (Hall : forallb is_digit (zfill k (digits m)) = true).
    { unfold zfill. rewrite forallb_app, DigitsFacts.forallb_zeros.
      now apply DigitsFacts.digits_all_digits. }
    rewrite forallb_forall in Hall. now apply Hall. }
  unfold format_0d. destruct (Z.ltb_spec n 0) as [Hneg|Hpos].
  - intros [<-|Hin]; [now right|left]. apply (Hz (w - 1)%nat (- n)); [lia|exact Hin].
  - intros Hin. left. now apply (Hz w n).
Qed.

Lemma hms_chars h m s c :
  In c (format_0d 2 h ++ str ":" ++ format_0d 2 m ++ str ":" ++ format_0d 2 s) ->
  c <> comma /\ c <> period.
Proof.
  assert (Hfield : forall k, In c (format_0d 2 k) -> c <> comma /\ c <> period).
  { intros k Hin. destruct (format_0d_chars 2 k c Hin) as [Hd| ->].
    - split; intros ->; discriminate.
    - split; discriminate. }
  assert (Hcolon : In c (str ":") -> c <> comma /\ c <> period).
  { intros [<-|[]]. split; discriminate. }
  intros Hin. repeat (apply in_app_or in Hin as [Hin|Hin]); eauto.
Qed.

Lemma millis_field ms :
  length (format_0d 3 (ms mod 1000)) = 3%nat
  /\ forallb is_digit (format_0d 3 (ms mod 1000)) = true.
Proof.
  pose proof (Z.mod_pos_bound ms 1000 ltac:(lia)) as Hr. split.
  - apply DigitsFacts.format_0d_exact_width; [lia|lia|]. change (10 ^ Z.of_nat 3) with 1000. lia.
  - apply (DigitsFacts.format_0d_zero_padded 3); lia.
Qed.

(** C7. For a non-negative [seconds]: the formatters raise exactly when
    [round(seconds * 1000)] does (the product is not finite); otherwise the
    rounded total [ms] is non-negative, the fields
    [hours = ms // 3600000], [minutes = (ms % 3600000) // 60000],
    [secs = (ms % 60000) // 1000], [millis = ms % 1000] are in range and add
    up to [ms] (so a value of an hour or more shows in the hours field), and
    the output is the four fields, zero-padded to 2, 2, 2 and 3 digits (each
    field being the only string that renders its number so), with [":"],
    [":"] and [","] (SRT) or ["."] (VTT) between them.
    [0.0] gives ["00:00:00,000"] and ["00:00:00.000"]; [3661.5] gives
    ["01:01:01,500"]. *)
Theorem timestamp_decomposition :
  (forall seconds, Float64.is_nonneg seconds = true ->
     (forall e, rounded_ms seconds = Raise e ->
        Float64.is_finite (Float64.mul seconds (Float64.of_Z 1000)) = false
        /\ _to_srt_timestamp seconds = Raise e
        /\ _to_vtt_timestamp seconds = Raise e)
     /\ (forall ms, rounded_ms seconds = Ok ms ->
           let hours := ms / 3600000 in
           let minutes := (ms mod 3600000) / 60000 in
           let secs := (ms mod 60000) / 1000 in
           let millis := ms mod 1000 in
           0 <= ms
           /\ ms = ((hours * 60 + minutes) * 60 + secs) * 1000 + millis
           /\ 0 <= minutes < 60 /\ 0 <= secs < 60 /\ 0 <= millis < 1000
           /\ (3600000 <= ms -> 1 <= hours)
           /\ exists H M S R,
                zero_padded 2 hours H /\ zero_padded 2 minutes M
                /\ zero_padded 2 secs S /\ zero_padded 3 millis R
                /\ _to_srt_timestamp seconds
                   = Ok (H ++ str ":" ++ M ++ str ":" ++ S ++ str "," ++ R)
                /\ _to_vtt_timestamp seconds
                   = Ok (H ++ str ":" ++ M ++ str ":" ++ S ++ str "." ++ R)
                /\ forall H' M' S' R',
                     zero_padded 2 hours H' -> zero_padded 2 minutes M' ->
                     zero_padded 2 secs S' -> zero_padded 3 millis R' ->
                     H' = H /\ M' = M /\ S' = S /\ R' = R))
  /\ _to_srt_timestamp (Float64.of_Z 0) = Ok (str "00:00:00,000")
  /\ _to_vtt_timestamp (Float64.of_Z 0) = Ok (str "00:00:00.000")
  /\ _to_srt_timestamp (Float64.of_scaled 7323 (-1)) = Ok (str "01:01:01,500").
Proof.
  split; [|repeat split; reflexivity].
  intros seconds Hnn. split.
  - intros e He. split; [|now apply timestamps_raise].
    apply Float64Facts.py_round_raises_iff. exists e. exact He.
  - intros ms Hms. cbv zeta.
    pose proof (rounded_ms_nonneg seconds ms Hnn Hms) as H0.
    destruct (fields_in_range ms H0) as (Hsum & Hh & Hm & Hs & Hr).
    split; [exact H0|]. split; [exact Hsum|].
    split; [exact Hm|]. split; [exact Hs|]. split; [exact Hr|].
    split.
    { intros Hbig. apply Z.div_le_lower_bound; lia. }
    exists (format_0d 2 (ms / 3600000)), (format_0d 2 ((ms mod 3600000) / 60000)),
      (format_0d 2 ((ms mod 60000) / 1000)), (format_0d 3 (ms mod 1000)).
    assert (ZH : zero_padded 2 (ms / 3600000) (format_0d 2 (ms / 3600000)))
      by (apply DigitsFacts.format_0d_zero_padded; lia).
    assert (ZM : zero_padded 2 ((ms mod 3600000) / 60000)
                   (format_0d 2 ((ms mod 3600000) / 60000)))
      by (apply DigitsFacts.format_0d_zero_padded; lia).
    assert (ZS : zero_padded 2 ((ms mod 60000) / 1000)
                   (format_0d 2 ((ms mod 60000) / 1000)))
      by (apply DigitsFacts.format_0d_zero_padded; lia).
    assert (ZR : zero_padded 3 (ms mod 1000) (format_0d 3 (ms mod 1000)))
      by (apply DigitsFacts.format_0d_zero_padded; lia).
    split; [exact ZH|]. split; [exact ZM|]. split; [exact ZS|].
    split; [exact ZR|].
    split; [now apply to_srt_timestamp_ok|].
    split; [now apply to_vtt_timestamp_ok|].
    intros H' M' S' R' ZH' ZM' ZS' ZR'.
    repeat split; eapply DigitsFacts.zero_padded_unique; eassumption.
Qed.

(** Times that lie half-way between two milliseconds go to the even one:
    [0.0005 * 1000] is [0.5], [0.0015 * 1000] is [1.5] and [1.0005 * 1000]
    is [1000.5] in binary64. *)
Example half_milliseconds_round_to_even :
  _to_srt_timestamp (Float64.of_scaled 4611686018427388 (-63))
  = Ok (str "00:00:00,000")
  /\ _to_srt_timestamp (Float64.of_scaled 6917529027641082 (-62))
     = Ok (str "00:00:00,002")
  /\ _to_srt_timestamp (Float64.of_scaled 4505851427184181 (-52))
     = Ok (str "00:00:01,000").
Proof. repeat split; vm_compute; reflexivity. Qed.

(** The theorem at [3661.5]. *)
Lemma timestamp_decomposition_witness :
  Float64.is_nonneg (Float64.of_scaled 7323 (-1)) = true
  /\ rounded_ms (Float64.of_scaled 7323 (-1)) = Ok 3661500
  /\ 0 <= 3661500.
Proof.
  split; [reflexivity|]. split; [reflexivity|].
  apply (proj2 (proj1 timestamp_decomposition
                  (Float64.of_scaled 7323 (-1)) eq_refl) 3661500 eq_refl).
Defined.

(** C8. For every [seconds] (non-negative or not) the two formatters either
    raise the same exception or return two strings that share everything
    before and after one character: the hours, minutes and seconds fields
    with their colons, then [","] for SRT and ["."] for VTT, then the three
    digits of the milliseconds. Neither separator occurs anywhere else. *)
Theorem timestamps_differ_in_separator seconds :
  (exists e, rounded_ms seconds = Raise e
             /\ _to_srt_timestamp seconds = Raise e
             /\ _to_vtt_timestamp seconds = Raise e)
  \/ (exists ms hms millis,
        rounded_ms seconds = Ok ms
        /\ hms = format_0d 2 (ms / 3600000) ++ str ":"
                 ++ format_0d 2 ((ms mod 3600000) / 60000) ++ str ":"
                 ++ format_0d 2 ((ms mod 60000) / 1000)
        /\ millis = format_0d 3 (ms mod 1000)
        /\ _to_srt_timestamp seconds = Ok (hms ++ comma :: millis)
        /\ _to_vtt_timestamp seconds = Ok (hms ++ period :: millis)
        /\ length millis = 3%nat
        /\ forallb is_digit millis = true
        /\ ~ In comma hms /\ ~ In period hms).
Proof.
  destruct (rounded_ms seconds) as [ms|e] eqn:E.
  - right. eexists ms, _, _. split; [reflexivity|].
    split; [reflexivity|]. split; [reflexivity|].
    rewrite (to_srt_timestamp_ok _ _ E), (to_vtt_timestamp_ok _ _ E).
    change (str ",") with [comma]. change (str ".") with [period].
    rewrite <- !app_assoc. cbn [app].
    destruct (millis_field ms) as [Hlen Hdig].
    repeat apply conj; try reflexivity; try assumption.
    + intros Hin. now apply hms_chars in Hin.
    + intros Hin. now apply hms_chars in Hin.
  - left. exists e. split; [reflexivity|]. now apply timestamps_raise.
Qed.

(** C9 fails at one hundred hours: [360000.0] seconds is a non-negative
    input and formats as ["100:00:00,000"], thirteen characters with three
    digits of hours. *)
Lemma timestamp_hundred_hours :
  Float64.is_nonneg (Float64.of_Z 360000) = true
  /\ _to_srt_timestamp (Float64.of_Z 360000) = Ok (str "100:00:00,000")
  /\ length (str "100:00:00,000") = 13%nat.
Proof. repeat split; reflexivity. Qed.

(** C9, as amended. For every non-negative [seconds] for which the rounding
    gives a total [ms]: the output is made of digits and the three
    separators; minutes and seconds take exactly 2 digits and milliseconds
    exactly 3; the hours take exactly 2 digits, and the whole output exactly
    12 characters, when and only when [ms < 360000000] (under one hundred
    hours). From one hundred hours on the hours field is longer. *)
Theorem timestamp_width seconds ms
    (Hnonneg : Float64.is_nonneg seconds = true)
    (Hms : rounded_ms seconds = Ok ms) :
  exists H M S R,
    _to_srt_timestamp seconds
    = Ok (H ++ str ":" ++ M ++ str ":" ++ S ++ str "," ++ R)
    /\ _to_vtt_timestamp seconds
       = Ok (H ++ str ":" ++ M ++ str ":" ++ S ++ str "." ++ R)
    /\ forallb is_digit (H ++ M ++ S ++ R) = true
    /\ length M = 2%nat /\ length S = 2%nat /\ length R = 3%nat
    /\ (length H = 2%nat <-> ms < 360000000)
    /\ (360000000 <= ms -> (2 < length H)%nat)
    /\ (length (H ++ str ":" ++ M ++ str ":" ++ S ++ str "," ++ R) = 12%nat
        <-> ms < 360000000)
    /\ (length (H ++ str ":" ++ M ++ str ":" ++ S ++ str "." ++ R) = 12%nat
        <-> ms < 360000000).
Proof.
  pose proof (rounded_ms_nonneg seconds ms Hnonneg Hms) as H0.
  destruct (fields_in_range ms H0) as (Hsum & Hh & Hm & Hs & Hr).
  set (hours := ms / 3600000) in *.
  set (minutes := (ms mod 3600000) / 60000) in *.
  set (secs := (ms mod 60000) / 1000) in *.
  set (millis := ms mod 1000) in *.
  exists (format_0d 2 hours), (format_0d 2 minutes), (format_0d 2 secs),
    (format_0d 3 millis).
  assert (HM : length (format_0d 2 minutes) = 2%nat).
  { apply DigitsFacts.format_0d_exact_width; [lia|lia|].
    change (10 ^ Z.of_nat 2) with 100. lia. }
  assert (HS : length (format_0d 2 secs) = 2%nat).
  { apply DigitsFacts.format_0d_exact_width; [lia|lia|].
    change (10 ^ Z.of_nat 2) with 100. lia. }
  assert (HR : length (format_0d 3 millis) = 3%nat).
  { apply DigitsFacts.format_0d_exact_width; [lia|lia|].
    change (10 ^ Z.of_nat 3) with 1000. lia. }
  assert (HH : length (format_0d 2 hours) = 2%nat <-> ms < 360000000).
  { rewrite DigitsFacts.format_0d_exact_width by lia.
    change (10 ^ Z.of_nat 2) with 100. lia. }
  assert (HHge : (2 <= length (format_0d 2 hours))%nat).
  { rewrite DigitsFacts.format_0d_length by lia. lia. }
  split; [now apply to_srt_timestamp_ok|].
  split; [now apply to_vtt_timestamp_ok|].
  split.
  { rewrite !forallb_app.
    destruct (DigitsFacts.format_0d_zero_padded 2 hours) as [-> _]; [lia|lia|].
    destruct (DigitsFacts.format_0d_zero_padded 2 minutes) as [-> _]; [lia|lia|].
    destruct (DigitsFacts.format_0d_zero_padded 2 secs) as [-> _]; [lia|lia|].
    destruct (DigitsFacts.format_0d_zero_padded 3 millis) as [-> _]; [lia|lia|].
    reflexivity. }
  split; [exact HM|]. split; [exact HS|]. split; [exact HR|].
  split; [exact HH|].
  split; [intros Hbig; destruct HH as [HH1 HH2]; lia|].
  rewrite !length_app, HM, HS, HR. cbn [length str map list_ascii_of_string].
  split; (split; [intros Hlen; apply HH; lia|intros Hlt; apply HH in Hlt; lia]).
Qed.

(** The theorem at [3661.5]. *)
Lemma timestamp_width_witness :
  Float64.is_nonneg (Float64.of_scaled 7323 (-1)) = true
  /\ rounded_ms (Float64.of_scaled 7323 (-1)) = Ok 3661500
  /\ exists H M S R,
       _to_srt_timestamp (Float64.of_scaled 7323 (-1))
       = Ok (H ++ str ":" ++ M ++ str ":" ++ S ++ str "," ++ R)
       /\ length H = 2%nat /\ length M = 2%nat /\ length S = 2%nat
       /\ length R = 3%nat.
Proof.
  split; [reflexivity|]. split; [reflexivity|].
  destruct (timestamp_width (Float64.of_scaled 7323 (-1)) 3661500
              eq_refl eq_refl)
    as (H & M & S & R & Hsrt & _ & _ & HM & HS & HR & HH & _).
  exists H, M, S, R. repeat split; try assumption. apply HH. lia.
Defined.

(* ================================================================== *)
(** * The caption serializers *)
(* ================================================================== *)

Lemma emit_app l1 l2 : emit (l1 ++ l2) = emit l1 ++ emit l2.
Proof. unfold emit. now rewrite map_app, concat_app. Qed.

(** Joining lines with newlines is emitting them without the last
    newline. *)
Lemma emit_join lines : lines <> [] -> emit lines = join nl lines ++ nl.
Proof.
  induction lines as [|p rest IH]; [contradiction|]. intros _.
  destruct rest as [|q rest].
  - unfold emit. simpl. now rewrite app_nil_r.
  - rewrite PyStrFacts.join_cons. change (emit (p :: q :: rest))
      with ((p ++ nl) ++ emit (q :: rest)).
    rewrite IH by discriminate. now rewrite <- !app_assoc.
Qed.

(** The newline that [join] leaves out is trimmed anyway. *)
Lemma rstrip_join lines : rstrip (join nl lines) = rstrip (emit lines).
Proof.
  destruct lines as [|p rest]; [reflexivity|].
  rewrite emit_join by discriminate.
  symmetry. apply PyStrFacts.rstrip_spaces. reflexivity.
Qed.

Lemma srt_lines_emit transcript : forall k lines,
  (ls <- srt_lines (Z.of_nat k) transcript lines ;; Ok (emit ls))
  = (cues <- traverse srt_cue
               (combine (map Z.of_nat (seq k (length transcript))) transcript) ;;
     Ok (emit lines ++ concat cues)).
Proof.
  induction transcript as [|sn rest IH]; intros k lines.
  - simpl. now rewrite app_nil_r.
  - cbn [srt_lines length seq map combine traverse srt_cue].
    destruct (_to_srt_timestamp (start sn)) as [s|e]; [|reflexivity].
    destruct (_to_srt_timestamp (Float64.add (start sn) (duration sn)))
      as [s'|e]; [|reflexivity].
    cbn [bind]. replace (Z.of_nat k + 1) with (Z.of_nat (S k)) by lia.
    rewrite IH.
    destruct (traverse srt_cue _) as [cues|e]; [|reflexivity].
    cbn [bind concat]. now rewrite emit_app, <- app_assoc.
Qed.

Lemma vtt_lines_emit transcript : forall lines,
  (ls <- vtt_lines transcript lines ;; Ok (emit ls))
  = (cues <- traverse vtt_cue transcript ;; Ok (emit lines ++ concat cues)).
Proof.
  induction transcript as [|sn rest IH]; intros lines.
  - simpl. now rewrite app_nil_r.
  - cbn [vtt_lines traverse]. unfold vtt_cue at 1.
    destruct (_to_vtt_timestamp (start sn)) as [s|e]; [|reflexivity].
    destruct (_to_vtt_timestamp (Float64.add (start sn) (duration sn)))
      as [s'|e]; [|reflexivity].
    cbn [bind]. rewrite IH.
    destruct (traverse vtt_cue _) as [cues|e]; [|reflexivity].
    cbn [bind concat]. now rewrite emit_app, <- app_assoc.
Qed.

Lemma trimmed_line_ends_once body : one_trailing_newline (rstrip body ++ nl).
Proof. exists (rstrip body). split; [reflexivity|apply PyStrFacts.rstrip_idempotent]. Qed.

Lemma finite_rounds x :
  Float64.is_finite (Float64.mul x (Float64.of_Z 1000)) = true ->
  exists ms, rounded_ms x = Ok ms.
Proof.
  unfold rounded_ms.
  destruct (Float64.mul x (Float64.of_Z 1000)); simpl; intros H;
    try discriminate; eexists; reflexivity.
Qed.

Lemma well_timed_cues (A : Type) (f : A -> result pystr) (snip : A -> snippet)
    (l : list A) :
  (forall a, well_timed (snip a) = true -> exists c, f a = Ok c) ->
  forallb well_timed (map snip l) = true ->
  exists cues, traverse f l = Ok cues.
Proof.
  intros Hf. induction l as [|a rest IH]; intros Hall.
  - exists []. reflexivity.
  - simpl in Hall. apply andb_prop in Hall as [Ha Hrest].
    destruct (Hf a Ha) as (c & Hc). destruct (IH Hrest) as (cues & Hcues).
    exists (c :: cues). simpl. now rewrite Hc, Hcues.
Qed.

Lemma srt_cue_defined cue :
  well_timed (snd cue) = true -> exists c, srt_cue cue = Ok c.
Proof.
  destruct cue as [i sn]. unfold well_timed. cbn [snd].
  intros H. apply andb_prop in H as [H1 H2].
  destruct (finite_rounds _ H1) as (ms1 & E1).
  destruct (finite_rounds _ H2) as (ms2 & E2).
  unfold srt_cue.
  rewrite (to_srt_timestamp_ok _ _ E1), (to_srt_timestamp_ok _ _ E2).
  eexists. reflexivity.
Qed.

Lemma vtt_cue_defined sn :
  well_timed sn = true -> exists c, vtt_cue sn = Ok c.
Proof.
  unfold well_timed. intros H. apply andb_prop in H as [H1 H2].
  destruct (finite_rounds _ H1) as (ms1 & E1).
  destruct (finite_rounds _ H2) as (ms2 & E2).
  unfold vtt_cue.
  rewrite (to_vtt_timestamp_ok _ _ E1), (to_vtt_timestamp_ok _ _ E2).
  eexists. reflexivity.
Qed.

Lemma numbered_snd transcript : map snd (numbered transcript) = transcript.
Proof.
  unfold numbered. generalize 1%nat.
  induction transcript as [|sn rest IH]; intros k; [reflexivity|].
  simpl. f_equal. apply IH.
Qed.

Lemma numbered_nth transcript i sn :
  nth_error transcript i = Some sn ->
  nth_error (numbered transcript) i = Some (Z.of_nat (S i), sn).
Proof.
  unfold numbered.
  assert (H : forall k, nth_error transcript i = Some sn ->
            nth_error (combine (map Z.of_nat (seq k (length transcript)))
                         transcript) i = Some (Z.of_nat (k + i), sn)).
  { revert i. induction transcript as [|a rest IH]; intros i k Hi.
    - destruct i; discriminate.
    - destruct i as [|i]; simpl in *.
      + injection Hi as ->. now rewrite Nat.add_0_r.
      + rewrite (IH i (S k) Hi). do 3 f_equal. lia. }
  intros Hi. now rewrite (H 1%nat Hi).
Qed.

(** C5. The SRT serializer emits, for each snippet in order, the cue made
    of its 1-based index, the line [start --> end] with
    [end = start + duration] (both by the SRT timestamp rule), the text and
    a blank line; it then trims trailing whitespace and appends one newline,
    so that a result ends with exactly one newline. It raises only when a
    timestamp does, and returns for every transcript whose times are in
    range. The snippet [{text: "hi", start: 1.0, duration: 2.0}] and the
    empty transcript give the stated strings. *)
Theorem format_srt_spec :
  (forall transcript,
     _format_srt transcript
     = (cues <- traverse srt_cue (numbered transcript) ;;
        Ok (rstrip (concat cues) ++ nl)))
  /\ (forall transcript i sn,
        nth_error transcript i = Some sn ->
        nth_error (numbered transcript) i = Some (Z.of_nat (S i), sn))
  /\ (forall transcript s,
        _format_srt transcript = Ok s -> one_trailing_newline s)
  /\ (forall transcript,
        forallb well_timed transcript = true ->
        exists s, _format_srt transcript = Ok s)
  /\ _format_srt [ {| text := str "hi";
                     start := Float64.of_Z 1;
                     duration := Float64.of_Z 2 |} ]
     = Ok (str "1" ++ nl ++ str "00:00:01,000 --> 00:00:03,000" ++ nl
           ++ str "hi" ++ nl)
  /\ _format_srt [] = Ok nl.
Proof.
  assert (Hspec : forall transcript,
            _format_srt transcript
            = (cues <- traverse srt_cue (numbered transcript) ;;
               Ok (rstrip (concat cues) ++ nl))).
  { intros transcript. unfold _format_srt, numbered.
    pose proof (srt_lines_emit transcript 1 []) as H.
    change (Z.of_nat 1) with 1 in H.
    destruct (srt_lines 1 transcript []) as [ls|e];
      destruct (traverse srt_cue _) as [cues|e']; cbn [bind] in *;
      try discriminate.
    - rewrite rstrip_join. injection H as ->. reflexivity.
    - exact H. }
  split; [exact Hspec|]. split; [exact numbered_nth|]. split; [|split].
  - intros transcript s. rewrite Hspec.
    destruct (traverse srt_cue _) as [cues|e]; cbn [bind]; [|discriminate].
    intros [= <-]. apply trimmed_line_ends_once.
  - intros transcript Hall. rewrite Hspec.
    destruct (well_timed_cues _ srt_cue snd (numbered transcript)) as (cues & ->).
    + intros a. apply srt_cue_defined.
    + now rewrite numbered_snd.
    + eexists. reflexivity.
  - split; reflexivity.
Qed.

(** The theorem at the transcript of one snippet. *)
Lemma format_srt_spec_witness :
  forallb well_timed
    [ {| text := str "hi"; start := Float64.of_Z 1; duration := Float64.of_Z 2 |} ]
  = true
  /\ exists s,
       _format_srt
         [ {| text := str "hi";
              start := Float64.of_Z 1;
              duration := Float64.of_Z 2 |} ] = Ok s
       /\ one_trailing_newline s.
Proof.
  split; [reflexivity|].
  destruct (proj1 (proj2 (proj2 (proj2 format_srt_spec)))
              [ {| text := str "hi";
                   start := Float64.of_Z 1;
                   duration := Float64.of_Z 2 |} ] eq_refl) as (s & Hs).
  exists s. split; [exact Hs|].
  exact (proj1 (proj2 (proj2 format_srt_spec)) _ s Hs).
Defined.

(** C6. The VTT serializer emits the line [WEBVTT] and a blank line, then
    for each snippet in order the line [start --> end] (VTT timestamp
    rule), the text and a blank line; it then trims trailing whitespace and
    appends one newline. It raises only when a timestamp does, and returns
    for every transcript whose times are in range. The snippet
    [{text: "hi", start: 1.0, duration: 2.0}] gives the stated string. *)
Theorem format_vtt_spec :
  (forall transcript,
     _format_vtt transcript
     = (cues <- traverse vtt_cue transcript ;;
        Ok (rstrip (emit [str "WEBVTT"; []] ++ concat cues) ++ nl)))
  /\ (forall transcript s,
        _format_vtt transcript = Ok s -> one_trailing_newline s)
  /\ (forall transcript,
        forallb well_timed transcript = true ->
        exists s, _format_vtt transcript = Ok s)
  /\ _format_vtt [ {| text := str "hi";
                     start := Float64.of_Z 1;
                     duration := Float64.of_Z 2 |} ]
     = Ok (str "WEBVTT" ++ nl ++ nl ++ str "00:00:01.000 --> 00:00:03.000"
           ++ nl ++ str "hi" ++ nl).
Proof.
  assert (Hspec : forall transcript,
            _format_vtt transcript
            = (cues <- traverse vtt_cue transcript ;;
               Ok (rstrip (emit [str "WEBVTT"; []] ++ concat cues) ++ nl))).
  { intros transcript. unfold _format_vtt.
    pose proof (vtt_lines_emit transcript [str "WEBVTT"; []]) as H.
    destruct (vtt_lines transcript _) as [ls|e];
      destruct (traverse vtt_cue _) as [cues|e']; cbn [bind] in *;
      try discriminate.
    - rewrite rstrip_join. injection H as ->. reflexivity.
    - exact H. }
  split; [exact Hspec|]. split; [|split].
  - intros transcript s. rewrite Hspec.
    destruct (traverse vtt_cue _) as [cues|e]; cbn [bind]; [|discriminate].
    intros [= <-]. apply trimmed_line_ends_once.
  - intros transcript Hall. rewrite Hspec.
    destruct (well_timed_cues _ vtt_cue (fun sn => sn) transcript) as (cues & ->).
    + intros a. apply vtt_cue_defined.
    + now rewrite map_id.
    + eexists. reflexivity.
  - reflexivity.
Qed.

(** The theorem at the transcript of one snippet. *)
Lemma format_vtt_spec_witness :
  forallb well_timed
    [ {| text := str "hi"; start := Float64.of_Z 1; duration := Float64.of_Z 2 |} ]
  = true
  /\ exists s,
       _format_vtt
         [ {| text := str "hi";
              start := Float64.of_Z 1;
              duration := Float64.of_Z 2 |} ] = Ok s
       /\ one_trailing_newline s.
Proof.
  split; [reflexivity|].
  destruct (proj1 (proj2 (proj2 format_vtt_spec))
              [ {| text := str "hi";
                   start := Float64.of_Z 1;
                   duration := Float64.of_Z 2 |} ] eq_refl) as (s & Hs).
  exists s. split; [exact Hs|].
  exact (proj1 (proj2 format_vtt_spec) _ s Hs).
Defined.

(** C10. With no cue at all the VTT serializer returns the header line
    alone, ["WEBVTT\n"]: trimming removes the blank line after the header
    but not the header. The SRT serializer returns a bare newline. *)
Theorem format_vtt_empty :
  _format_vtt [] = Ok (str "WEBVTT" ++ nl)
  /\ _format_srt [] = Ok nl
  /\ rstrip (emit [str "WEBVTT"; []]) = str "WEBVTT".
Proof. repeat split; reflexivity. Qed.

(* ================================================================== *)
(** * The [/transcript] handler *)
(* ================================================================== *)

Lemma handle_provider_exception e :
  issubclass (exn_class e) YouTubeTranscriptApiException = true ->
  handle e = HTTPException 404 (exn_msg e).
Proof.
  intros H. unfold handle, caught_by. cbn [existsb].
  rewrite H, !orb_true_r. reflexivity.
Qed.

Section HandlerFacts.

Variable str_lower : pystr -> pystr.
Variable render_message : response -> pystr.
Context {TranscriptList Transcript : Type}.
Variable api : provider TranscriptList Transcript.
Variables (video_id : pystr) (languages : list pystr)
          (fmt : output_format) (preserve_formatting : bool).

Lemma selects_lookup tl t :
  selects api languages tl t ->
  match find_transcript api tl languages with
  | Ok t' => Ok t'
  | Raise e =>
      if caught_by [NoTranscriptFound] e
      then find_generated_transcript api tl languages
      else Raise e
  end = Ok t.
Proof.
  intros [Hfound|e0 Hraise Hcaught Hgen].
  - now rewrite Hfound.
  - now rewrite Hraise, Hcaught.
Qed.

(** An exception that a provider call raises, and that the fallback does
    not absorb, leaves the [try] body. *)
Lemma provider_raises_try_body e :
  provider_raises api video_id languages preserve_formatting e ->
  try_body render_message api video_id languages fmt preserve_formatting
  = Raise e.
Proof.
  unfold try_body.
  intros [Hlist|tl Hlist Hfind Hnot|tl e0 Hlist Hfind Hcaught Hgen
          |tl t Hlist Hsel Hfetch].
  - now rewrite Hlist.
  - rewrite Hlist. cbn [bind]. now rewrite Hfind, Hnot.
  - rewrite Hlist. cbn [bind]. now rewrite Hfind, Hcaught, Hgen.
  - rewrite Hlist. cbn [bind]. rewrite (selects_lookup tl t Hsel).
    cbn [bind]. now rewrite Hfetch.
Qed.

(** Under the contract of the lookups, the fallback changes nothing about
    an exception of a provider call: it leaves the [try] body as it is. *)
Lemma provider_call_raises_try_body e :
  lookup_contract api ->
  provider_call_raises api video_id languages preserve_formatting e ->
  try_body render_message api video_id languages fmt preserve_formatting
  = Raise e.
Proof.
  intros Hcontract
    [Hlist|tl Hlist Hfind|tl e0 Hlist Hfind Hcaught Hgen
    |tl t Hlist Hsel Hfetch].
  - apply provider_raises_try_body. now apply raises_list.
  - destruct (caught_by [NoTranscriptFound] e) eqn:Hcaught.
    + apply provider_raises_try_body.
      apply (raises_find_generated _ _ _ _ e tl e Hlist Hfind Hcaught).
      now apply Hcontract.
    + apply provider_raises_try_body. now apply (raises_find _ _ _ _ e tl).
  - apply provider_raises_try_body.
    now apply (raises_find_generated _ _ _ _ e tl e0).
  - apply provider_raises_try_body. now apply (raises_fetch _ _ _ _ e tl t).
Qed.

End HandlerFacts.

(** The provider made of track lists keeps the contract of the lookups. *)
Lemma tracks_provider_contract listing not_found :
  lookup_contract (tracks_provider listing not_found).
Proof.
  intros tl languages e. cbn [find_transcript find_generated_transcript
                              tracks_provider].
  assert (H : _find_transcript languages [manually_created tl; generated tl]
              = None ->
              _find_transcript languages [generated tl] = None).
  { induction languages as [|code rest IH]; [reflexivity|].
    cbn [_find_transcript first_track].
    destruct (track_of code (manually_created tl)); [discriminate|].
    destruct (track_of code (generated tl)); [discriminate|]. exact IH. }
  destruct (_find_transcript languages [manually_created tl; generated tl]);
    [discriminate|].
  intros <- _. now rewrite H.
Qed.

(** C1 against the code: an upstream request failure raised by the provider
    is answered with 404, not 502. [YouTubeRequestFailed] derives from
    [YouTubeTranscriptApiException], which the first [except] clause lists,
    so the clause written for it is never reached: no exception at all is
    answered with 502. *)
Theorem upstream_failure_answered_404 :
  (forall str_lower render_message c video_id lang fmt preserve_formatting
          msg,
     get_transcript str_lower render_message
       (failing_provider {| exn_class := YouTubeRequestFailed; exn_msg := msg |})
       (Some (c :: video_id)) lang fmt preserve_formatting
     = HTTPException 404 msg)
  /\ issubclass YouTubeRequestFailed YouTubeTranscriptApiException = true
  /\ (forall e,
        match handle e with
        | HTTPException status_code _ => (status_code =? 502) = false
        | _ => True
        end).
Proof.
  split; [reflexivity|]. split; [reflexivity|].
  intros [cls msg]. destruct cls; exact eq_refl || exact I.
Qed.

(** C2. Every kind the first clause names derives from
    [YouTubeTranscriptApiException], the class of every exception the
    provider defines. For a provider whose lookups keep their contract, an
    exception of such a class raised by any call the handler makes on the
    provider (the listing, either lookup, the fetch) is answered with 404
    and the message of that exception, in every format. This includes a
    [NoTranscriptFound] of the first lookup: the lookup of generated tracks
    that follows raises the same. *)
Theorem provider_error_answered_404
    (str_lower : pystr -> pystr) (render_message : response -> pystr)
    (TranscriptList Transcript : Type)
    (api : provider TranscriptList Transcript)
    (video_id : pystr) (lang : option pystr) (preserve_formatting : bool) :
  video_id <> [] ->
  lookup_contract api ->
  forallb (fun c => issubclass c YouTubeTranscriptApiException)
    (YouTubeTranscriptApiException :: named_kinds) = true
  /\ (forall fmt e,
        provider_call_raises api video_id (_parse_languages str_lower lang)
          preserve_formatting e ->
        issubclass (exn_class e) YouTubeTranscriptApiException = true ->
        get_transcript str_lower render_message api (Some video_id) lang fmt
          preserve_formatting
        = HTTPException 404 (exn_msg e)).
Proof.
  intros Hid Hcontract. destruct video_id as [|c rest]; [contradiction|].
  split; [reflexivity|].
  intros fmt e Hraises Hsub. unfold get_transcript.
  rewrite (provider_call_raises_try_body render_message api _ _ fmt _ e
             Hcontract Hraises).
  now apply handle_provider_exception.
Qed.

(** The theorem for a video whose tracks are in no requested language: the
    first lookup raises [NoTranscriptFound], so does the lookup of
    generated tracks, and the answer is 404 with that message. *)
Lemma provider_error_answered_404_witness :
  str "abc" <> []
  /\ lookup_contract (tracks_provider welsh_video not_found_message)
  /\ find_transcript (tracks_provider welsh_video not_found_message)
       {| manually_created := []; generated := [(str "cy", [])] |}
       (_parse_languages lower_ascii_only (Some (str "de,en")))
     = Raise {| exn_class := NoTranscriptFound;
                exn_msg := not_found_message
                             {| manually_created := [];
                                generated := [(str "cy", [])] |}
                             [str "de"; str "en"] |}
  /\ get_transcript lower_ascii_only any_message
       (tracks_provider welsh_video not_found_message)
       (Some (str "abc")) (Some (str "de,en")) srt false
     = HTTPException 404
         (str "No transcripts were found for any of the requested language codes").
Proof.
  assert (Hid : str "abc" <> []) by discriminate.
  pose proof (tracks_provider_contract welsh_video not_found_message)
    as Hcontract.
  split; [exact Hid|]. split; [exact Hcontract|]. split; [reflexivity|].
  apply (proj2 (provider_error_answered_404 lower_ascii_only any_message
                  track_list (list snippet)
                  (tracks_provider welsh_video not_found_message)
                  (str "abc") (Some (str "de,en")) false Hid Hcontract)
           srt
           {| exn_class := NoTranscriptFound;
              exn_msg := not_found_message
                           {| manually_created := [];
                              generated := [(str "cy", [])] |}
                           [str "de"; str "en"] |}).
  - apply (call_find _ _ _ _ _
             {| manually_created := []; generated := [(str "cy", [])] |});
      reflexivity.
  - reflexivity.
Defined.

(* ================================================================== *)
(** * Further properties of the service *)
(* ================================================================== *)

(** ** More facts about strings *)

Module PyStrMore.

Definition newline : codepoint := 10%N.

(** Splitting undoes joining, whatever the separator, as long as no piece
    holds it. *)
Lemma split_join sep pieces :
  pieces <> [] -> Forall (fun p => ~ In sep p) pieces ->
  split sep (join [sep] pieces) = pieces.
Proof.
  intros Hne Hfree. induction pieces as [|p rest IH]; [contradiction|].
  inversion Hfree as [|? ? Hp Hrest]; subst.
  destruct rest as [|q rest].
  - simpl. now apply PyStrFacts.split_free.
  - rewrite PyStrFacts.join_cons. simpl app.
    rewrite PyStrFacts.split_app_sep by exact Hp.
    f_equal. apply IH; [discriminate|exact Hrest].
Qed.

Lemma join_app sep l1 l2 :
  l1 <> [] -> l2 <> [] -> join sep (l1 ++ l2) = join sep l1 ++ sep ++ join sep l2.
Proof.
  intros H1 H2. induction l1 as [|p rest IH]; [contradiction|].
  destruct rest as [|q rest].
  - destruct l2 as [|r l2]; [contradiction|]. reflexivity.
  - change ((p :: q :: rest) ++ l2) with (p :: q :: (rest ++ l2)).
    rewrite !PyStrFacts.join_cons.
    change (q :: rest ++ l2) with ((q :: rest) ++ l2).
    rewrite IH by discriminate. now rewrite <- !app_assoc.
Qed.

Lemma split_length sep s :
  length (split sep s) = S (count_occ N.eq_dec s sep).
Proof.
  induction s as [|c rest IH]; [reflexivity|].
  simpl split. cbn [count_occ].
  destruct (N.eqb_spec c sep) as [->|Hne].
  - destruct (N.eq_dec sep sep) as [_|Hn]; [|contradiction]. simpl. now rewrite IH.
  - destruct (N.eq_dec c sep) as [E|_]; [contradiction|].
    pose proof (PyStrFacts.split_nonempty sep rest) as Hn.
    destruct (split sep rest) as [|q qs]; [contradiction|]. exact IH.
Qed.

(** Trimming on the right looks at the end of the string only. *)
Lemma lstrip_app x y :
  lstrip (x ++ y) = match lstrip x with [] => lstrip y | _ => lstrip x ++ y end.
Proof.
  induction x as [|c x IH]; simpl.
  - now destruct (lstrip y).
  - destruct (is_space c); [exact IH|reflexivity].
Qed.

Lemma rstrip_app a b :
  rstrip (a ++ b) = match rstrip b with [] => rstrip a | _ => a ++ rstrip b end.
Proof.
  unfold rstrip. rewrite rev_app_distr, lstrip_app.
  destruct (lstrip (rev b)) as [|c t] eqn:E; [reflexivity|].
  rewrite rev_app_distr, rev_involutive.
  destruct (rev (c :: t)) eqn:E'; [|reflexivity].
  apply (f_equal (@length _)) in E'. rewrite length_rev in E'. discriminate.
Qed.

(** A string that ends with a character that is not whitespace. *)
Definition ends_clean (s : pystr) : Prop :=
  exists c, hd_error (rev s) = Some c /\ is_space c = false.

Lemma ends_clean_rstrip s : ends_clean s -> rstrip s = s /\ s <> [].
Proof.
  intros (c & Hc & Hs). split; [now apply (PyStrFacts.rstrip_last s c)|].
  intros ->. discriminate.
Qed.

Lemma rstrip_app_clean a b : ends_clean b -> rstrip (a ++ b) = a ++ b.
Proof.
  intros Hb. destruct (ends_clean_rstrip b Hb) as [E Hne].
  rewrite rstrip_app, E. destruct b; [contradiction|reflexivity].
Qed.

Lemma ends_clean_app a b : ends_clean b -> ends_clean (a ++ b).
Proof.
  intros (c & Hc & Hs). exists c. split; [|exact Hs].
  rewrite rev_app_distr. destruct (rev b); [discriminate|exact Hc].
Qed.

Lemma ends_clean_cons c b : ends_clean b -> ends_clean (c :: b).
Proof. apply (ends_clean_app [c]). Qed.

Lemma app_inv_length {A} (a a' b b' : list A) :
  length a = length a' -> a ++ b = a' ++ b' -> a = a' /\ b = b'.
Proof.
  revert a'. induction a as [|x a IH]; intros [|x' a'] Hlen E;
    try discriminate; [now split|].
  injection Hlen as Hlen. injection E as -> E.
  destruct (IH a' Hlen E) as [-> ->]. now split.
Qed.

End PyStrMore.
Import PyStrMore.

(** ** The plain-text serializer *)

(** X1. When the transcript is not empty and no text holds a newline, the
    lines of the plain-text body are the texts of the snippets, in order and
    unchanged: nothing is trimmed and nothing is added at the end. *)
Theorem format_txt_lines transcript :
  transcript <> [] ->
  Forall (fun sn => ~ In newline (text sn)) transcript ->
  split newline (_format_txt transcript) = map text transcript
  /\ length (split newline (_format_txt transcript)) = length transcript
  /\ count_occ N.eq_dec (_format_txt transcript) newline
     = (length transcript - 1)%nat.
Proof.
  intros Hne Hfree. unfold _format_txt.
  assert (E : split newline (join nl (map text transcript)) = map text transcript).
  { apply (split_join newline).
    - destruct transcript; [contradiction|discriminate].
    - rewrite Forall_map. exact Hfree. }
  split; [exact E|].
  pose proof (split_length newline (join nl (map text transcript))) as Hlen.
  rewrite E, length_map in Hlen.
  split; [now rewrite E, length_map|lia].
Qed.

(** The theorem at the transcript of the texts ["a"] and ["b"]. *)
Lemma format_txt_lines_witness :
  split newline
    (_format_txt [ {| text := str "a"; start := Float64.of_Z 0;
                      duration := Float64.of_Z 1 |};
                   {| text := str "b"; start := Float64.of_Z 1;
                      duration := Float64.of_Z 1 |} ])
  = [str "a"; str "b"].
Proof.
  apply (format_txt_lines
           [ {| text := str "a"; start := Float64.of_Z 0;
                duration := Float64.of_Z 1 |};
             {| text := str "b"; start := Float64.of_Z 1;
                duration := Float64.of_Z 1 |} ]).
  - discriminate.
  - repeat constructor; cbn; intros H;
      repeat (destruct H as [H|H]; [discriminate H|]); exact H.
Defined.

(** X2. The plain-text body of two transcripts put end to end is the two
    bodies with one newline between them, provided neither is empty; an
    empty transcript adds nothing, not even a newline. *)
Theorem format_txt_app t1 t2 :
  (t1 <> [] -> t2 <> [] ->
   _format_txt (t1 ++ t2) = _format_txt t1 ++ nl ++ _format_txt t2)
  /\ _format_txt ([] ++ t2) = _format_txt t2
  /\ _format_txt (t1 ++ []) = _format_txt t1.
Proof.
  split; [|split].
  - intros H1 H2. unfold _format_txt. rewrite map_app. apply join_app.
    + destruct t1; [contradiction|discriminate].
    + destruct t2; [contradiction|discriminate].
  - reflexivity.
  - now rewrite app_nil_r.
Qed.

(** The theorem at two transcripts of one snippet each. *)
Lemma format_txt_app_witness :
  _format_txt
    ([ {| text := str "a"; start := Float64.of_Z 0; duration := Float64.of_Z 1 |} ]
     ++ [ {| text := str "b"; start := Float64.of_Z 1;
             duration := Float64.of_Z 1 |} ])
  = str "a" ++ nl ++ str "b".
Proof.
  apply (proj1 (format_txt_app
                  [ {| text := str "a"; start := Float64.of_Z 0;
                       duration := Float64.of_Z 1 |} ]
                  [ {| text := str "b"; start := Float64.of_Z 1;
                       duration := Float64.of_Z 1 |} ]));
    discriminate.
Defined.

(** ** The SRT and VTT serializers *)

Lemma Ok_inj {A} (a b : A) : Ok a = Ok b -> a = b.
Proof. now intros [= ->]. Qed.

Lemma format_srt_emit transcript :
  _format_srt transcript
  = (cues <- traverse srt_cue (numbered transcript) ;;
     Ok (rstrip (concat cues) ++ nl)).
Proof.
  unfold _format_srt, numbered.
  pose proof (srt_lines_emit transcript 1 []) as H.
  change (Z.of_nat 1) with 1 in H.
  destruct (srt_lines 1 transcript []) as [ls|e];
    destruct (traverse srt_cue _) as [cues|e']; cbn [bind] in *;
    try discriminate.
  - rewrite rstrip_join. injection H as ->. reflexivity.
  - exact H.
Qed.

Lemma format_vtt_emit transcript :
  _format_vtt transcript
  = (cues <- traverse vtt_cue transcript ;;
     Ok (rstrip (str "WEBVTT" ++ nl ++ nl ++ concat cues) ++ nl)).
Proof.
  unfold _format_vtt.
  pose proof (vtt_lines_emit transcript [str "WEBVTT"; []]) as H.
  destruct (vtt_lines transcript _) as [ls|e];
    destruct (traverse vtt_cue _) as [cues|e']; cbn [bind] in *;
    try discriminate.
  - rewrite rstrip_join. injection H as ->. reflexivity.
  - exact H.
Qed.

Lemma emit_last_text lines txt :
  emit (lines ++ [txt; []]) = emit lines ++ txt ++ nl ++ nl.
Proof.
  rewrite emit_app. unfold emit at 2. cbn [map concat].
  now rewrite app_nil_r, <- app_assoc.
Qed.

Lemma traverse_last {A B} (f : A -> result B) l0 a bs :
  traverse f (l0 ++ [a]) = Ok bs ->
  exists bs0 b, traverse f l0 = Ok bs0 /\ f a = Ok b /\ bs = bs0 ++ [b].
Proof.
  revert bs. induction l0 as [|x l0 IH]; intros bs H.
  - simpl in H. destruct (f a) as [b|e]; [|discriminate].
    injection H as <-. exists [], b. repeat split.
  - cbn [app traverse] in H. destruct (f x) as [y|e] eqn:Ex; [|discriminate].
    cbn [bind] in H.
    destruct (traverse f (l0 ++ [a])) as [bs'|e] eqn:E; [|discriminate].
    injection H as <-. destruct (IH bs' eq_refl) as (bs0 & b & H0 & Hb & ->).
    exists (y :: bs0), b. cbn [traverse]. rewrite Ex, H0.
    split; [reflexivity|]. split; [exact Hb|reflexivity].
Qed.

Lemma traverse_snoc {A B} (f : A -> result B) l0 a bs0 b :
  traverse f l0 = Ok bs0 -> f a = Ok b ->
  traverse f (l0 ++ [a]) = Ok (bs0 ++ [b]).
Proof.
  revert bs0. induction l0 as [|x l0 IH]; intros bs0 H0 Hb.
  - injection H0 as <-. simpl. now rewrite Hb.
  - cbn [app traverse] in *. destruct (f x) as [y|e]; [|discriminate].
    cbn [bind] in *. destruct (traverse f l0) as [bs'|e]; [|discriminate].
    injection H0 as <-. now rewrite (IH bs' eq_refl Hb).
Qed.

Lemma numbered_snoc t0 sn :
  numbered (t0 ++ [sn]) = numbered t0 ++ [(Z.of_nat (S (length t0)), sn)].
Proof.
  unfold numbered.
  assert (H : forall k,
            combine (map Z.of_nat (seq k (length (t0 ++ [sn])))) (t0 ++ [sn])
            = combine (map Z.of_nat (seq k (length t0))) t0
              ++ [(Z.of_nat (k + length t0), sn)]).
  { induction t0 as [|a t0 IH]; intros k.
    - simpl. now rewrite Nat.add_0_r.
    - cbn [app length seq map combine]. rewrite IH. cbn [app].
      do 4 f_equal. lia. }
  apply H.
Qed.

Lemma digit_not_space c : is_digit c = true -> is_space c = false.
Proof.
  unfold is_digit, in_range. intros H. apply andb_prop in H as [H1 H2].
  apply N.leb_le in H1, H2.
  assert (Hc : (c = 48 \/ c = 49 \/ c = 50 \/ c = 51 \/ c = 52 \/ c = 53
                \/ c = 54 \/ c = 55 \/ c = 56 \/ c = 57)%N) by lia.
  repeat (destruct Hc as [->|Hc]; [reflexivity|]). now subst c.
Qed.

(** A timestamp ends with a digit. *)
Lemma timestamp_ends_clean :
  (forall x s, _to_srt_timestamp x = Ok s -> ends_clean s)
  /\ (forall x s, _to_vtt_timestamp x = Ok s -> ends_clean s).
Proof.
  assert (Hfield : forall ms, ends_clean (format_0d 3 (ms mod 1000))).
  { intros ms. destruct (millis_field ms) as [Hlen Hdig].
    destruct (rev (format_0d 3 (ms mod 1000))) as [|c t] eqn:E.
    - apply (f_equal (@length _)) in E. rewrite length_rev, Hlen in E. discriminate.
    - exists c. rewrite E. split; [reflexivity|]. apply digit_not_space.
      rewrite forallb_forall in Hdig. apply Hdig. apply in_rev. rewrite E. now left. }
  split; intros x s Hs.
  - destruct (rounded_ms x) as [ms|e] eqn:E.
    + rewrite (to_srt_timestamp_ok _ _ E) in Hs. injection Hs as <-.
      repeat first [apply Hfield | apply ends_clean_cons | apply ends_clean_app].
    + destruct (timestamps_raise _ _ E) as [H _]. congruence.
  - destruct (rounded_ms x) as [ms|e] eqn:E.
    + rewrite (to_vtt_timestamp_ok _ _ E) in Hs. injection Hs as <-.
      repeat first [apply Hfield | apply ends_clean_cons | apply ends_clean_app].
    + destruct (timestamps_raise _ _ E) as [_ H]. congruence.
Qed.

(** X3. Every VTT body starts with the line [WEBVTT]: whatever the snippets
    hold, the trimming of trailing whitespace never reaches the header. *)
Theorem format_vtt_header transcript s :
  _format_vtt transcript = Ok s ->
  exists rest, s = str "WEBVTT" ++ nl ++ rest.
Proof.
  rewrite format_vtt_emit.
  destruct (traverse vtt_cue transcript) as [cues|e]; cbn [bind]; [|discriminate].
  intros Hs. apply Ok_inj in Hs. subst s. rewrite (rstrip_app (str "WEBVTT")).
  destruct (rstrip (nl ++ nl ++ concat cues)) as [|c t] eqn:E.
  - exists []. reflexivity.
  - rewrite <- E. rewrite (rstrip_app nl) in *.
    destruct (rstrip (nl ++ concat cues)) as [|c' t'] eqn:E'; [discriminate|].
    exists ((c' :: t') ++ nl). now rewrite <- !app_assoc.
Qed.

(** The theorem at the empty transcript. *)
Lemma format_vtt_header_witness :
  exists rest, str "WEBVTT" ++ nl = str "WEBVTT" ++ nl ++ rest.
Proof. exact (format_vtt_header [] (str "WEBVTT" ++ nl) eq_refl). Defined.

(** X4. When the text of the last snippet ends with a character that is
    not whitespace, trimming costs the body nothing but the newline of the
    last blank line: the SRT body followed by a newline is the run of all
    cue blocks, and the VTT body followed by a newline is the header, a
    blank line and the run of all cue blocks. *)
Theorem serializers_keep_clean_text t0 sn :
  ends_clean (text sn) ->
  (forall s, _format_srt (t0 ++ [sn]) = Ok s ->
     exists cues, traverse srt_cue (numbered (t0 ++ [sn])) = Ok cues
                  /\ s ++ nl = concat cues)
  /\ (forall s, _format_vtt (t0 ++ [sn]) = Ok s ->
        exists cues, traverse vtt_cue (t0 ++ [sn]) = Ok cues
                     /\ s ++ nl = str "WEBVTT" ++ nl ++ nl ++ concat cues).
Proof.
  intros Hclean.
  assert (Htrim : forall P, rstrip (((P ++ text sn) ++ nl) ++ nl)
                            = P ++ text sn).
  { intros P. rewrite <- (app_assoc _ nl nl).
    rewrite PyStrFacts.rstrip_spaces by reflexivity.
    now apply rstrip_app_clean. }
  split; intros s Hs.
  - rewrite format_srt_emit in Hs.
    destruct (traverse srt_cue (numbered (t0 ++ [sn]))) as [cues|e] eqn:E;
      cbn [bind] in Hs; [|discriminate].
    exists cues. split; [reflexivity|]. apply Ok_inj in Hs. subst s.
    rewrite numbered_snoc in E.
    apply traverse_last in E as (cues0 & c & _ & Hc & ->).
    unfold srt_cue in Hc.
    destruct (_to_srt_timestamp (start sn)) as [ts|e]; [|discriminate].
    destruct (_to_srt_timestamp (Float64.add (start sn) (duration sn)))
      as [te|e]; [|discriminate].
    cbn [bind] in Hc. apply Ok_inj in Hc. subst c.
    change [str_int (Z.of_nat (S (length t0))); ts ++ str " --> " ++ te;
            text sn; []]
      with ([str_int (Z.of_nat (S (length t0))); ts ++ str " --> " ++ te]
            ++ [text sn; []]).
    rewrite concat_app, emit_last_text. cbn [concat]. rewrite app_nil_r.
    rewrite !app_assoc, Htrim. reflexivity.
  - rewrite format_vtt_emit in Hs.
    destruct (traverse vtt_cue (t0 ++ [sn])) as [cues|e] eqn:E;
      cbn [bind] in Hs; [|discriminate].
    exists cues. split; [reflexivity|]. apply Ok_inj in Hs. subst s.
    apply traverse_last in E as (cues0 & c & _ & Hc & ->).
    unfold vtt_cue in Hc.
    destruct (_to_vtt_timestamp (start sn)) as [ts|e]; [|discriminate].
    destruct (_to_vtt_timestamp (Float64.add (start sn) (duration sn)))
      as [te|e]; [|discriminate].
    cbn [bind] in Hc. apply Ok_inj in Hc. subst c.
    change [ts ++ str " --> " ++ te; text sn; []]
      with ([ts ++ str " --> " ++ te] ++ [text sn; []]).
    rewrite concat_app, emit_last_text. cbn [concat]. rewrite app_nil_r.
    rewrite !app_assoc, Htrim. reflexivity.
Qed.

(** The theorem at the transcript of the one snippet ["hi"]. *)
Lemma serializers_keep_clean_text_witness :
  ends_clean (str "hi")
  /\ exists cues,
       traverse srt_cue
         (numbered ([] ++ [ {| text := str "hi"; start := Float64.of_Z 1;
                               duration := Float64.of_Z 2 |} ])) = Ok cues
       /\ (str "1" ++ nl ++ str "00:00:01,000 --> 00:00:03,000" ++ nl
           ++ str "hi" ++ nl) ++ nl = concat cues.
Proof.
  assert (Hclean : ends_clean (str "hi")).
  { exists 105%N. split; reflexivity. }
  split; [exact Hclean|].
  exact (proj1 (serializers_keep_clean_text []
                  {| text := str "hi"; start := Float64.of_Z 1;
                     duration := Float64.of_Z 2 |} Hclean)
           _ eq_refl).
Defined.

Lemma rstrip_blank_tail P L T :
  ends_clean L -> forallb is_space T = true ->
  rstrip (P ++ emit [L; T; []]) = P ++ L.
Proof.
  intros HL HT.
  replace (P ++ emit [L; T; []]) with ((P ++ L) ++ (nl ++ T ++ nl ++ nl)).
  - rewrite PyStrFacts.rstrip_spaces; [now apply rstrip_app_clean|].
    rewrite !forallb_app, HT. reflexivity.
  - unfold emit. cbn [map concat]. rewrite app_nil_r, <- !app_assoc.
    reflexivity.
Qed.

(** X5. When the text of the last snippet is empty or all whitespace, the
    trimming removes its text line with the blank line: the body ends with
    the time line of the last cue. *)
Theorem blank_last_text_is_trimmed t0 sn :
  forallb is_space (text sn) = true ->
  (forall cues0 ts te,
     traverse srt_cue (numbered t0) = Ok cues0 ->
     _to_srt_timestamp (start sn) = Ok ts ->
     _to_srt_timestamp (Float64.add (start sn) (duration sn)) = Ok te ->
     _format_srt (t0 ++ [sn])
     = Ok (concat cues0 ++ str_int (Z.of_nat (S (length t0))) ++ nl
           ++ ts ++ str " --> " ++ te ++ nl))
  /\ (forall cues0 ts te,
        traverse vtt_cue t0 = Ok cues0 ->
        _to_vtt_timestamp (start sn) = Ok ts ->
        _to_vtt_timestamp (Float64.add (start sn) (duration sn)) = Ok te ->
        _format_vtt (t0 ++ [sn])
        = Ok (str "WEBVTT" ++ nl ++ nl ++ concat cues0
              ++ ts ++ str " --> " ++ te ++ nl)).
Proof.
  intros Hblank. destruct timestamp_ends_clean as [Hsrt Hvtt].
  split; intros cues0 ts te H0 Hts Hte.
  - rewrite format_srt_emit, numbered_snoc.
    rewrite (traverse_snoc srt_cue _ _ cues0
               (emit [str_int (Z.of_nat (S (length t0)));
                      ts ++ str " --> " ++ te; text sn; []]) H0)
      by (unfold srt_cue; now rewrite Hts, Hte).
    cbn [bind]. rewrite concat_app. cbn [concat]. rewrite app_nil_r.
    change (emit [str_int (Z.of_nat (S (length t0)));
                  ts ++ str " --> " ++ te; text sn; []])
      with ((str_int (Z.of_nat (S (length t0))) ++ nl)
            ++ emit [ts ++ str " --> " ++ te; text sn; []]).
    rewrite !app_assoc.
    rewrite rstrip_blank_tail; [| |exact Hblank].
    + now rewrite <- !app_assoc.
    + apply ends_clean_app. eapply Hsrt; eauto.
  - rewrite format_vtt_emit.
    rewrite (traverse_snoc vtt_cue _ _ cues0
               (emit [ts ++ str " --> " ++ te; text sn; []]) H0)
      by (unfold vtt_cue; now rewrite Hts, Hte).
    cbn [bind]. rewrite concat_app. cbn [concat]. rewrite app_nil_r.
    rewrite !app_assoc.
    rewrite rstrip_blank_tail; [| |exact Hblank].
    + now rewrite <- !app_assoc.
    + apply ends_clean_app. eapply Hvtt; eauto.
Qed.

(** The theorem at the transcript of one snippet whose text is a space. *)
Lemma blank_last_text_is_trimmed_witness :
  _format_srt ([] ++ [ {| text := str " "; start := Float64.of_Z 1;
                          duration := Float64.of_Z 2 |} ])
  = Ok (concat [] ++ str_int (Z.of_nat 1) ++ nl
        ++ str "00:00:01,000" ++ str " --> " ++ str "00:00:03,000" ++ nl).
Proof.
  apply (proj1 (blank_last_text_is_trimmed []
                  {| text := str " "; start := Float64.of_Z 1;
                     duration := Float64.of_Z 2 |} eq_refl));
    reflexivity.
Defined.

(** ** More on the timestamp formatters *)

(** The fields of any total, negative ones included: floor division keeps
    minutes, seconds and milliseconds in range. *)
Lemma fields_of_any_total ms :
  let hours := ms / 3600000 in
  let minutes := (ms mod 3600000) / 60000 in
  let secs := (ms mod 60000) / 1000 in
  let millis := ms mod 1000 in
  ms = ((hours * 60 + minutes) * 60 + secs) * 1000 + millis
  /\ 0 <= minutes < 60 /\ 0 <= secs < 60 /\ 0 <= millis < 1000.
Proof.
  cbv zeta.
  pose proof (Z.div_mod ms 3600000 ltac:(lia)).
  pose proof (Z.mod_pos_bound ms 3600000 ltac:(lia)).
  pose proof (Z.div_mod (ms mod 3600000) 60000 ltac:(lia)).
  pose proof (Z.mod_pos_bound (ms mod 3600000) 60000 ltac:(lia)).
  pose proof (Z.div_mod ms 60000 ltac:(lia)).
  pose proof (Z.mod_pos_bound ms 60000 ltac:(lia)).
  pose proof (Z.div_mod (ms mod 60000) 1000 ltac:(lia)).
  pose proof (Z.mod_pos_bound (ms mod 60000) 1000 ltac:(lia)).
  pose proof (Z.div_mod ms 1000 ltac:(lia)).
  pose proof (Z.mod_pos_bound ms 1000 ltac:(lia)).
  assert (0 <= ms mod 3600000 / 60000 < 60)
    by (split; [apply Z.div_pos; lia|apply Z.div_lt_upper_bound; lia]).
  assert (0 <= ms mod 60000 / 1000 < 60)
    by (split; [apply Z.div_pos; lia|apply Z.div_lt_upper_bound; lia]).
  assert (E1 : (ms mod 3600000) mod 60000 = ms mod 60000)
    by (apply Z.mod_mod_divide; exists 60; reflexivity).
  assert (E2 : (ms mod 60000) mod 1000 = ms mod 1000)
    by (apply Z.mod_mod_divide; exists 60; reflexivity).
  repeat split; lia.
Qed.

Lemma format_0d_value w n :
  (1 <= w)%nat -> 0 <= n -> digits_value (format_0d w n) = n.
Proof.
  intros Hw Hn. now destruct (DigitsFacts.format_0d_zero_padded w n Hw Hn) as (_ & ? & _).
Qed.

(** The four fields can be read back from the string: two non-negative
    totals that are rendered alike are equal. *)
Lemma rendering_injective (sep : pystr) m1 m2 :
  0 <= m1 -> 0 <= m2 ->
  format_0d 2 (m1 / 3600000) ++ str ":"
    ++ format_0d 2 ((m1 mod 3600000) / 60000) ++ str ":"
    ++ format_0d 2 ((m1 mod 60000) / 1000) ++ sep
    ++ format_0d 3 (m1 mod 1000)
  = format_0d 2 (m2 / 3600000) ++ str ":"
    ++ format_0d 2 ((m2 mod 3600000) / 60000) ++ str ":"
    ++ format_0d 2 ((m2 mod 60000) / 1000) ++ sep
    ++ format_0d 3 (m2 mod 1000) ->
  m1 = m2.
Proof.
  intros H1 H2 E.
  destruct (fields_in_range m1 H1) as (Hsum1 & Hh1 & Hm1 & Hs1 & Hr1).
  destruct (fields_in_range m2 H2) as (Hsum2 & Hh2 & Hm2 & Hs2 & Hr2).
  assert (W2 : forall n, 0 <= n < 60 -> length (format_0d 2 n) = 2%nat).
  { intros n Hn. apply DigitsFacts.format_0d_exact_width; [lia|lia|].
    change (10 ^ Z.of_nat 2) with 100. lia. }
  assert (W3 : forall n, 0 <= n < 1000 -> length (format_0d 3 n) = 3%nat).
  { intros n Hn. apply DigitsFacts.format_0d_exact_width; [lia|lia|].
    change (10 ^ Z.of_nat 3) with 1000. lia. }
  assert (HL : length (format_0d 2 (m1 / 3600000))
               = length (format_0d 2 (m2 / 3600000))).
  { apply (f_equal (@length _)) in E. rewrite !length_app in E.
    rewrite (W2 _ Hm1), (W2 _ Hs1), (W2 _ Hm2), (W2 _ Hs2), (W3 _ Hr1),
      (W3 _ Hr2) in E.
    lia. }
  apply app_inv_length in E as [EH E]; [|exact HL].
  apply app_inv_length in E as [_ E]; [|reflexivity].
  apply app_inv_length in E as [EM E]; [|now rewrite (W2 _ Hm1), (W2 _ Hm2)].
  apply app_inv_length in E as [_ E]; [|reflexivity].
  apply app_inv_length in E as [ES E]; [|now rewrite (W2 _ Hs1), (W2 _ Hs2)].
  apply app_inv_head in E.
  apply (f_equal digits_value) in EH, EM, ES, E.
  rewrite !format_0d_value in EH, EM, ES, E by lia.
  lia.
Qed.

(** X6. Two non-negative times get the same timestamp only when they round
    to the same millisecond: no two distinct totals share a rendering, in
    either format and whatever the number of hours. *)
Theorem timestamps_injective x y m1 m2 :
  Float64.is_nonneg x = true -> Float64.is_nonneg y = true ->
  rounded_ms x = Ok m1 -> rounded_ms y = Ok m2 ->
  (_to_srt_timestamp x = _to_srt_timestamp y <-> m1 = m2)
  /\ (_to_vtt_timestamp x = _to_vtt_timestamp y <-> m1 = m2).
Proof.
  intros Hx Hy E1 E2.
  pose proof (rounded_ms_nonneg x m1 Hx E1) as P1.
  pose proof (rounded_ms_nonneg y m2 Hy E2) as P2.
  rewrite (to_srt_timestamp_ok _ _ E1), (to_srt_timestamp_ok _ _ E2),
    (to_vtt_timestamp_ok _ _ E1), (to_vtt_timestamp_ok _ _ E2).
  split; split; intros H; try (subst; reflexivity);
    apply Ok_inj in H; eapply rendering_injective; eauto.
Qed.

(** The theorem at [1.0] and [1.0004], which both round to 1000 ms. *)
Lemma timestamps_injective_witness :
  _to_srt_timestamp (Float64.of_Z 1)
  = _to_srt_timestamp (Float64.of_scaled 4505401067221444 (-52))
  <-> 1000 = 1000.
Proof.
  exact (proj1 (timestamps_injective (Float64.of_Z 1)
                  (Float64.of_scaled 4505401067221444 (-52)) 1000 1000
                  eq_refl eq_refl eq_refl eq_refl)).
Defined.

(** X7. A time that rounds to a negative total is rendered with a negative
    hours field and the other fields counted up from the hour below: the
    output starts with a minus sign, then the digits of [-hours] without
    padding, while minutes, seconds and milliseconds stay within range and
    the fields still add up to the total. Half a second before zero is
    ["-1:59:59,500"]. *)
Theorem negative_timestamp x ms :
  rounded_ms x = Ok ms -> ms < 0 ->
  let hours := ms / 3600000 in
  let minutes := (ms mod 3600000) / 60000 in
  let secs := (ms mod 60000) / 1000 in
  let millis := ms mod 1000 in
  hours < 0
  /\ 0 <= minutes < 60 /\ 0 <= secs < 60 /\ 0 <= millis < 1000
  /\ ms = ((hours * 60 + minutes) * 60 + secs) * 1000 + millis
  /\ _to_srt_timestamp x
     = Ok (minus_sign :: digits (- hours) ++ str ":"
           ++ format_0d 2 minutes ++ str ":" ++ format_0d 2 secs ++ str ","
           ++ format_0d 3 millis)
  /\ _to_vtt_timestamp x
     = Ok (minus_sign :: digits (- hours) ++ str ":"
           ++ format_0d 2 minutes ++ str ":" ++ format_0d 2 secs ++ str "."
           ++ format_0d 3 millis).
Proof.
  intros E Hneg. cbv zeta.
  destruct (fields_of_any_total ms) as (Hsum & Hm & Hs & Hr).
  assert (Hh : ms / 3600000 < 0) by (apply Z.div_lt_upper_bound; lia).
  assert (Hfield : format_0d 2 (ms / 3600000)
                   = minus_sign :: digits (- (ms / 3600000))).
  { unfold format_0d. destruct (Z.ltb_spec (ms / 3600000) 0); [|lia].
    unfold zfill.
    pose proof (DigitsFacts.digits_not_nil (- (ms / 3600000)) ltac:(lia)).
    replace (2 - 1 - length (digits (- (ms / 3600000))))%nat with 0%nat by lia.
    reflexivity. }
  rewrite (to_srt_timestamp_ok _ _ E), (to_vtt_timestamp_ok _ _ E), Hfield.
  repeat split; try lia.
Qed.

(** The theorem at [-0.5]. *)
Lemma negative_timestamp_witness :
  rounded_ms (Float64.of_scaled (-1) (-1)) = Ok (-500)
  /\ _to_srt_timestamp (Float64.of_scaled (-1) (-1)) = Ok (str "-1:59:59,500").
Proof.
  split; [reflexivity|].
  exact (proj1 (proj2 (proj2 (proj2 (proj2 (proj2
           (negative_timestamp (Float64.of_scaled (-1) (-1)) (-500)
              eq_refl eq_refl))))))).
Defined.

(** ** More on the language-preference parser *)

Module AsciiFacts.

Lemma is_space_cases c :
  is_space c = true ->
  (9 <= c <= 13 \/ 28 <= c <= 32 \/ c = 133 \/ c = 160 \/ c = 5760
   \/ 8192 <= c <= 8202 \/ c = 8232 \/ c = 8233 \/ c = 8239 \/ c = 8287
   \/ c = 12288)%N.
Proof.
  unfold is_space, in_range. rewrite !orb_true_iff, !andb_true_iff,
    !N.leb_le, !N.eqb_eq. tauto.
Qed.

Lemma letter_not_space c : (65 <= c <= 122)%N -> is_space c = false.
Proof.
  intros Hc. destruct (is_space c) eqn:E; [|reflexivity].
  apply is_space_cases in E. lia.
Qed.

Lemma in_range_spec lo hi c : in_range lo hi c = true <-> (lo <= c <= hi)%N.
Proof. unfold in_range. rewrite andb_true_iff, !N.leb_le. tauto. Qed.

Lemma is_space_lower c : is_space (ascii_lower c) = is_space c.
Proof.
  unfold ascii_lower. destruct (in_range 65 90 c) eqn:E; [|reflexivity].
  apply in_range_spec in E. rewrite !letter_not_space by lia. reflexivity.
Qed.

Lemma lower_is_comma c : ascii_lower c = comma <-> c = comma.
Proof.
  unfold ascii_lower, comma. destruct (in_range 65 90 c) eqn:E; [|tauto].
  apply in_range_spec in E. lia.
Qed.

Lemma lower_lower c : ascii_lower (ascii_lower c) = ascii_lower c.
Proof.
  destruct (in_range 65 90 c) eqn:E.
  - assert (H : ascii_lower c = (c + 32)%N) by (unfold ascii_lower; now rewrite E).
    rewrite H. unfold ascii_lower.
    destruct (in_range 65 90 (c + 32)) eqn:E'; [|reflexivity].
    apply in_range_spec in E, E'. lia.
  - assert (H : ascii_lower c = c) by (unfold ascii_lower; now rewrite E).
    rewrite H. exact H.
Qed.

Lemma is_ascii_lower c : is_ascii (ascii_lower c) = is_ascii c.
Proof.
  unfold ascii_lower, is_ascii. destruct (in_range 65 90 c) eqn:E; [|reflexivity].
  apply in_range_spec in E.
  destruct (N.ltb_spec (c + 32) 128), (N.ltb_spec c 128); try reflexivity; lia.
Qed.

Lemma map_lower_lower s : map ascii_lower (map ascii_lower s) = map ascii_lower s.
Proof. rewrite map_map. apply map_ext. intros c. apply lower_lower. Qed.

Lemma forallb_ascii_lower s :
  forallb is_ascii (map ascii_lower s) = forallb is_ascii s.
Proof.
  induction s as [|c s IH]; [reflexivity|]. simpl. now rewrite is_ascii_lower, IH.
Qed.

(** Lowercasing ASCII letters commutes with trimming and with splitting at
    commas. *)
Lemma lstrip_lower s : lstrip (map ascii_lower s) = map ascii_lower (lstrip s).
Proof.
  induction s as [|c s IH]; [reflexivity|]. simpl. rewrite is_space_lower.
  destruct (is_space c); [exact IH|reflexivity].
Qed.

Lemma rstrip_lower s : rstrip (map ascii_lower s) = map ascii_lower (rstrip s).
Proof. unfold rstrip. now rewrite <- map_rev, lstrip_lower, map_rev. Qed.

Lemma strip_lower s : strip (map ascii_lower s) = map ascii_lower (strip s).
Proof. unfold strip. now rewrite lstrip_lower, rstrip_lower. Qed.

Lemma split_lower s :
  split comma (map ascii_lower s) = map (map ascii_lower) (split comma s).
Proof.
  induction s as [|c s IH]; [reflexivity|]. simpl.
  destruct (N.eqb_spec c comma) as [->|Hne].
  - change (ascii_lower comma) with comma. rewrite N.eqb_refl. simpl. now rewrite IH.
  - destruct (N.eqb_spec (ascii_lower c) comma) as [E|_].
    + apply (proj1 (lower_is_comma c)) in E. contradiction.
    + rewrite IH. destruct (split comma s); reflexivity.
Qed.

Lemma strip_strip s : strip (strip s) = strip s.
Proof.
  symmetry. apply PyStrFacts.trimmed_unique.
  destruct (PyStrFacts.strip_trimmed s) as (l & r & _ & _ & _ & Hh & Ht).
  exists [], []. rewrite app_nil_r. repeat split; assumption.
Qed.

Lemma strip_sublist s c : In c (strip s) -> In c s.
Proof.
  destruct (PyStrFacts.strip_trimmed s) as (l & r & Hs & _).
  intros H. rewrite Hs. apply in_or_app. right. apply in_or_app. now left.
Qed.

Lemma forallb_strip (f : codepoint -> bool) s :
  forallb f s = true -> forallb f (strip s) = true.
Proof.
  rewrite !forallb_forall. intros H c Hc. apply H. now apply strip_sublist.
Qed.

Lemma forallb_pieces (f : codepoint -> bool) sep s p :
  forallb f s = true -> In p (split sep s) -> forallb f p = true.
Proof.
  rewrite !forallb_forall. intros H Hp c Hc. apply H.
  eapply PyStrFacts.in_split_in; eauto.
Qed.

Lemma forallb_join (f : codepoint -> bool) sep pieces :
  forallb f sep = true -> Forall (fun p => forallb f p = true) pieces ->
  forallb f (join sep pieces) = true.
Proof.
  intros Hsep. induction 1 as [|p rest Hp Hrest IH]; [reflexivity|].
  destruct rest as [|q rest]; [exact Hp|].
  rewrite PyStrFacts.join_cons, !forallb_app, Hp, Hsep. exact IH.
Qed.

End AsciiFacts.

(** A language code as the parser leaves it: not empty, without comma,
    without whitespace at either end. *)
Definition clean_code (code : pystr) : Prop :=
  code <> [] /\ ~ In comma code /\ strip code = code.

Section ParserMore.

Variable str_lower : pystr -> pystr.
Hypothesis lower_ok : lower_spec str_lower.

Lemma parse_languages_ascii s :
  s <> [] -> forallb is_ascii s = true ->
  _parse_languages str_lower (Some s)
  = map (map ascii_lower) (filter truthy (map strip (split comma s))).
Proof.
  intros Hs Ha. rewrite (parse_languages_some str_lower lower_ok s Hs).
  apply map_ext_in. intros t Ht. destruct lower_ok as [Hascii _].
  apply Hascii. apply filter_In in Ht as [Ht _].
  apply in_map_iff in Ht as (p & <- & Hp).
  apply AsciiFacts.forallb_strip. eapply AsciiFacts.forallb_pieces; eauto.
Qed.

(** What every entry of the list is like, for ASCII input. *)
Lemma parse_languages_ascii_entries s code :
  s <> [] -> forallb is_ascii s = true ->
  In code (_parse_languages str_lower (Some s)) ->
  clean_code code /\ forallb is_ascii code = true
  /\ map ascii_lower code = code.
Proof.
  intros Hs Ha Hin. rewrite (parse_languages_ascii s Hs Ha) in Hin.
  apply in_map_iff in Hin as (t & <- & Ht).
  apply filter_In in Ht as [Ht Htruthy].
  apply in_map_iff in Ht as (p & <- & Hp).
  split; [split; [|split]|split].
  - destruct (strip p); [discriminate|discriminate].
  - intros Hc. apply in_map_iff in Hc as (c & Hc & Hcin).
    apply (proj1 (AsciiFacts.lower_is_comma c)) in Hc. subst c.
    apply AsciiFacts.strip_sublist in Hcin.
    pose proof (PyStrFacts.split_no_sep comma s) as Hfree.
    rewrite Forall_forall in Hfree. exact (Hfree p Hp Hcin).
  - now rewrite AsciiFacts.strip_lower, AsciiFacts.strip_strip.
  - rewrite AsciiFacts.forallb_ascii_lower. apply AsciiFacts.forallb_strip.
    eapply AsciiFacts.forallb_pieces; eauto.
  - apply AsciiFacts.map_lower_lower.
Qed.

(** A list of clean lowercase ASCII codes, written with commas, parses back
    to itself. *)
Lemma parse_languages_join codes :
  codes <> [] ->
  Forall (fun code => clean_code code /\ forallb is_ascii code = true
                      /\ map ascii_lower code = code) codes ->
  _parse_languages str_lower (Some (join [comma] codes)) = codes.
Proof.
  intros Hne Hall.
  assert (Hfree : Forall (fun p => ~ In comma p) codes).
  { eapply Forall_impl; [|exact Hall]. intros c ((_ & H & _) & _). exact H. }
  assert (Hjoin : join [comma] codes <> []).
  { destruct codes as [|c rest]; [contradiction|].
    inversion Hall as [|? ? ((Hc & _) & _) _]; subst.
    destruct rest; simpl; [exact Hc|].
    destruct c; [contradiction|discriminate]. }
  assert (Ha : forallb is_ascii (join [comma] codes) = true).
  { apply AsciiFacts.forallb_join; [reflexivity|].
    eapply Forall_impl; [|exact Hall]. intros c (_ & H & _). exact H. }
  etransitivity; [exact (parse_languages_ascii _ Hjoin Ha)|].
  rewrite (split_join comma codes Hne Hfree).
  clear Hne Hfree Hjoin Ha.
  induction Hall as [|c rest ((Hc & _ & Hs) & _ & Hl) _ IH]; [reflexivity|].
  assert (Ht : truthy c = true) by (destruct c; [contradiction|reflexivity]).
  cbn [map filter]. rewrite Hs, Ht. cbn [map]. now rewrite Hl, IH.
Qed.

End ParserMore.

(** X8. Every entry of the list the parser returns is non-empty, and the
    list has at most one entry per comma-separated piece of the input. For
    ASCII input every entry is moreover free of commas, free of whitespace
    at both ends, and without upper-case letters. *)
Theorem parse_languages_entries
    (str_lower : pystr -> pystr) (lower_ok : lower_spec str_lower) :
  (forall lang, Forall (fun code => code <> [])
                  (_parse_languages str_lower lang))
  /\ (forall s, s <> [] ->
        (length (_parse_languages str_lower (Some s))
         <= S (count_occ N.eq_dec s comma))%nat)
  /\ (forall s, s <> [] -> forallb is_ascii s = true ->
        Forall (fun code => clean_code code
                            /\ forallb is_ascii code = true
                            /\ map ascii_lower code = code)
          (_parse_languages str_lower (Some s))).
Proof.
  split; [|split].
  - intros [s|]; [|repeat constructor; discriminate].
    destruct s as [|c s]; [repeat constructor; discriminate|].
    unfold _parse_languages. cbn [truthy negb]. apply Forall_forall.
    intros code Hin. apply filter_In in Hin as [_ Ht].
    destruct code; [discriminate|discriminate].
  - intros s Hs. rewrite (parse_languages_some str_lower lower_ok s Hs).
    rewrite length_map.
    pose proof (filter_length_le truthy (map strip (split comma s))) as H.
    now rewrite length_map, split_length in H.
  - intros s Hs Ha. apply Forall_forall. intros code Hin.
    now apply (parse_languages_ascii_entries str_lower lower_ok s).
Qed.

(** The theorem at ["DE, en ,"]. *)
Lemma parse_languages_entries_witness :
  lower_spec lower_ascii_only
  /\ (length (_parse_languages lower_ascii_only (Some (str "DE, en ,")))
      <= S (count_occ N.eq_dec (str "DE, en ,") comma))%nat.
Proof.
  split; [exact lower_ascii_only_spec|].
  apply (proj1 (proj2 (parse_languages_entries lower_ascii_only
                         lower_ascii_only_spec))).
  discriminate.
Defined.

(** X9. For ASCII input that names a language, writing the parsed list back
    with commas and parsing it again gives the same list. For input that
    names none the list is empty, it is written back as the empty string,
    and parsing that gives [["en"]]. *)
Theorem parse_languages_round_trip
    (str_lower : pystr -> pystr) (lower_ok : lower_spec str_lower) s :
  s <> [] -> forallb is_ascii s = true ->
  (names_a_language s = true ->
   _parse_languages str_lower
     (Some (join [comma] (_parse_languages str_lower (Some s))))
   = _parse_languages str_lower (Some s))
  /\ (names_a_language s = false ->
      _parse_languages str_lower
        (Some (join [comma] (_parse_languages str_lower (Some s))))
      = [str "en"]).
Proof.
  intros Hs Ha. split; intros Hn.
  - apply (parse_languages_join str_lower lower_ok).
    + apply (parse_languages_entry_iff str_lower lower_ok s Hs) in Hn.
      intros E. rewrite E in Hn. simpl in Hn. lia.
    + apply Forall_forall. intros code Hin.
      now apply (parse_languages_ascii_entries str_lower lower_ok s).
  - destruct (_parse_languages str_lower (Some s)) as [|x xs] eqn:E;
      [reflexivity|].
    assert (H : names_a_language s = true).
    { apply (parse_languages_entry_iff str_lower lower_ok s Hs).
      rewrite E. simpl. lia. }
    congruence.
Qed.

(** The theorem at ["DE, en ,"]. *)
Lemma parse_languages_round_trip_witness :
  lower_spec lower_ascii_only
  /\ _parse_languages lower_ascii_only
       (Some (join [comma]
                (_parse_languages lower_ascii_only (Some (str "DE, en ,")))))
     = _parse_languages lower_ascii_only (Some (str "DE, en ,")).
Proof.
  split; [exact lower_ascii_only_spec|].
  apply (proj1 (parse_languages_round_trip lower_ascii_only
                  lower_ascii_only_spec (str "DE, en ,")
                  ltac:(discriminate) eq_refl)).
  reflexivity.
Defined.

Section ParserCase.

Variable str_lower : pystr -> pystr.
Hypothesis lower_ok : lower_spec str_lower.

Lemma filter_truthy_map (f : codepoint -> codepoint) pieces :
  filter truthy (map (map f) pieces) = map (map f) (filter truthy pieces).
Proof.
  induction pieces as [|p rest IH]; [reflexivity|].
  cbn [map filter]. destruct p; cbn [map truthy]; now rewrite IH.
Qed.

Lemma map_strip_lower pieces :
  map strip (map (map ascii_lower) pieces)
  = map (map ascii_lower) (map strip pieces).
Proof.
  induction pieces as [|p rest IH]; [reflexivity|].
  cbn [map]. now rewrite AsciiFacts.strip_lower, IH.
Qed.

Lemma parse_languages_lowered s :
  forallb is_ascii s = true ->
  _parse_languages str_lower (Some (map ascii_lower s))
  = _parse_languages str_lower (Some s).
Proof.
  intros Ha. destruct s as [|c s]; [reflexivity|].
  etransitivity; [apply (parse_languages_ascii str_lower lower_ok)|].
  - discriminate.
  - now rewrite AsciiFacts.forallb_ascii_lower.
  - symmetry.
    etransitivity;
      [apply (parse_languages_ascii str_lower lower_ok);
       [discriminate|exact Ha]|].
    rewrite AsciiFacts.split_lower, map_strip_lower, filter_truthy_map, map_map.
    apply map_ext. intros p. symmetry. apply AsciiFacts.map_lower_lower.
Qed.

End ParserCase.

(** X10. The language hint is read without regard to ASCII case: two ASCII
    hints that differ only in the case of their letters give the same list
    of languages, and the handler answers both requests alike. *)
Theorem language_hint_case_insensitive
    (str_lower : pystr -> pystr) (lower_ok : lower_spec str_lower) s s' :
  forallb is_ascii s = true -> forallb is_ascii s' = true ->
  map ascii_lower s = map ascii_lower s' ->
  _parse_languages str_lower (Some s) = _parse_languages str_lower (Some s')
  /\ forall (render_message : response -> pystr)
            (TranscriptList Transcript : Type)
            (api : provider TranscriptList Transcript)
            video_id fmt preserve_formatting,
       get_transcript str_lower render_message api video_id (Some s) fmt
         preserve_formatting
       = get_transcript str_lower render_message api video_id (Some s') fmt
           preserve_formatting.
Proof.
  intros Ha Ha' E.
  assert (Hp : _parse_languages str_lower (Some s)
               = _parse_languages str_lower (Some s')).
  { rewrite <- (parse_languages_lowered str_lower lower_ok s Ha),
      <- (parse_languages_lowered str_lower lower_ok s' Ha').
    now rewrite E. }
  split; [exact Hp|].
  intros msg TL T api video_id fmt pf. unfold get_transcript.
  destruct video_id as [[|c v]|]; try reflexivity. now rewrite Hp.
Qed.

(** The theorem at ["EN,de"] and ["en,DE"]. *)
Lemma language_hint_case_insensitive_witness :
  lower_spec lower_ascii_only
  /\ _parse_languages lower_ascii_only (Some (str "EN,de"))
     = _parse_languages lower_ascii_only (Some (str "en,DE")).
Proof.
  split; [exact lower_ascii_only_spec|].
  exact (proj1 (language_hint_case_insensitive lower_ascii_only
                  lower_ascii_only_spec (str "EN,de") (str "en,DE")
                  eq_refl eq_refl eq_refl)).
Defined.

(** ** More on the [/transcript] handler *)

(** The provider [api] with another lookup of generated tracks. *)
Definition with_generated_lookup {TranscriptList Transcript : Type}
    (api : provider TranscriptList Transcript)
    (lookup : TranscriptList -> list pystr -> result Transcript)
  : provider TranscriptList Transcript :=
  {| api_list := api_list api;
     find_transcript := find_transcript api;
     find_generated_transcript := lookup;
     fetch := fetch api |}.

(** The two exceptions [round] raises on a float that is not finite. *)
Definition time_error (e : exn) : Prop :=
  exn_class e = OverflowError \/ exn_class e = ValueError.

Definition internal_server_error : outcome :=
  HTTPException 500 (str "Internal Server Error").

Lemma handle_unexpected e :
  issubclass (exn_class e) PyException = true ->
  issubclass (exn_class e) YouTubeTranscriptApiException = false ->
  handle e = internal_server_error.
Proof.
  destruct e as [cls msg]. cbn [exn_class].
  destruct cls; intros H1 H2; try discriminate H1; try discriminate H2;
    reflexivity.
Qed.

Lemma handle_time_error e : time_error e -> handle e = internal_server_error.
Proof.
  destruct e as [cls msg]. intros [H|H]; cbn [exn_class] in H; subst cls;
    reflexivity.
Qed.

Lemma handle_cases e :
  handle e = HTTPException 404 (exn_msg e)
  \/ handle e = internal_server_error
  \/ (handle e = Uncaught e /\ issubclass (exn_class e) PyException = false).
Proof.
  destruct e as [cls msg]. destruct cls; cbn;
    first [left; reflexivity
          |right; left; reflexivity
          |right; right; split; reflexivity].
Qed.

Lemma py_round_time_error x e : Float64.py_round x = Raise e -> time_error e.
Proof.
  destruct x; simpl; intros H; try discriminate; injection H as <-;
    [left|right]; reflexivity.
Qed.

Lemma timestamp_time_error x e :
  (_to_srt_timestamp x = Raise e -> time_error e)
  /\ (_to_vtt_timestamp x = Raise e -> time_error e).
Proof.
  unfold _to_srt_timestamp, _to_vtt_timestamp.
  destruct (Float64.py_round (Float64.mul x (Float64.of_Z 1000))) as [ms|e']
    eqn:E; cbn [bind]; split; intros H; try discriminate;
    injection H as <-; eapply py_round_time_error; eauto.
Qed.

Lemma timestamp_raises x :
  Float64.is_finite (Float64.mul x (Float64.of_Z 1000)) = false ->
  exists e, _to_srt_timestamp x = Raise e /\ _to_vtt_timestamp x = Raise e.
Proof.
  intros H. apply Float64Facts.py_round_raises_iff in H as (e & He).
  exists e. now apply timestamps_raise.
Qed.

Lemma cue_time_error :
  (forall cue e, srt_cue cue = Raise e -> time_error e)
  /\ (forall sn e, vtt_cue sn = Raise e -> time_error e).
Proof.
  split.
  - intros [i sn] e. unfold srt_cue.
    destruct (_to_srt_timestamp (start sn)) as [ts|e1] eqn:E1; cbn [bind].
    + destruct (_to_srt_timestamp (Float64.add (start sn) (duration sn)))
        as [te|e2] eqn:E2; cbn [bind]; [discriminate|].
      intros [= <-]. now apply (proj1 (timestamp_time_error _ _)) in E2.
    + intros [= <-]. now apply (proj1 (timestamp_time_error _ _)) in E1.
  - intros sn e. unfold vtt_cue.
    destruct (_to_vtt_timestamp (start sn)) as [ts|e1] eqn:E1; cbn [bind].
    + destruct (_to_vtt_timestamp (Float64.add (start sn) (duration sn)))
        as [te|e2] eqn:E2; cbn [bind]; [discriminate|].
      intros [= <-]. now apply (proj2 (timestamp_time_error _ _)) in E2.
    + intros [= <-]. now apply (proj2 (timestamp_time_error _ _)) in E1.
Qed.

Lemma cue_raises sn :
  well_timed sn = false ->
  (forall i, exists e, srt_cue (i, sn) = Raise e)
  /\ exists e, vtt_cue sn = Raise e.
Proof.
  unfold well_timed. intros H. apply andb_false_iff in H.
  unfold srt_cue, vtt_cue. destruct H as [H|H].
  - destruct (timestamp_raises _ H) as (e & Hs & Hv). rewrite Hs, Hv.
    split; [intros i|]; exists e; reflexivity.
  - destruct (timestamp_raises _ H) as (e & Hs & Hv). rewrite Hs, Hv.
    split; [intros i|].
    + destruct (_to_srt_timestamp (start sn)); eexists; reflexivity.
    + destruct (_to_vtt_timestamp (start sn)); eexists; reflexivity.
Qed.

Lemma traverse_raises {A B} (f : A -> result B) l :
  (exists a, In a l /\ exists e, f a = Raise e) ->
  exists e a, traverse f l = Raise e /\ In a l /\ f a = Raise e.
Proof.
  induction l as [|x l IH]; intros (a & Hin & e & He); [destruct Hin|].
  cbn [traverse]. destruct (f x) as [y|e'] eqn:Ex.
  - destruct Hin as [->|Hin]; [congruence|].
    destruct IH as (e1 & a1 & Ht & Hin1 & Hf1);
      [exists a; split; [exact Hin|now exists e]|].
    exists e1, a1. cbn [bind]. rewrite Ht. repeat split; [now right|exact Hf1].
  - exists e', x. repeat split; [now left|exact Ex].
Qed.

(** A transcript with a time out of range makes both cue serializers raise
    one of the two errors of [round]. *)
Lemma serializers_raise transcript :
  forallb well_timed transcript = false ->
  (exists e, _format_srt transcript = Raise e /\ time_error e)
  /\ (exists e, _format_vtt transcript = Raise e /\ time_error e).
Proof.
  intros H.
  assert (Hbad : exists sn, In sn transcript /\ well_timed sn = false).
  { induction transcript as [|sn rest IH]; [discriminate|].
    cbn [forallb] in H. apply andb_false_iff in H as [H|H].
    - exists sn. split; [now left|exact H].
    - destruct (IH H) as (sn' & Hin & Hw). exists sn'. split; [now right|exact Hw]. }
  destruct Hbad as (sn & Hin & Hw). destruct (cue_raises sn Hw) as [Hs Hv].
  destruct cue_time_error as [Cs Cv]. split.
  - rewrite format_srt_emit.
    destruct (traverse_raises srt_cue (numbered transcript))
      as (e & cue & Ht & _ & Hc).
    + apply In_nth_error in Hin as (i & Hi).
      exists (Z.of_nat (S i), sn). split; [|apply Hs].
      eapply nth_error_In. now apply numbered_nth.
    + exists e. rewrite Ht. split; [reflexivity|]. eapply Cs; eauto.
  - rewrite format_vtt_emit.
    destruct (traverse_raises vtt_cue transcript) as (e & a & Ht & _ & Hc).
    + exists sn. split; [exact Hin|exact Hv].
    + exists e. rewrite Ht. split; [reflexivity|]. eapply Cv; eauto.
Qed.

(** The errors of a response that cannot be built. *)
Definition render_error (e : exn) : Prop :=
  exn_class e = ValueError \/ exn_class e = UnicodeEncodeError.

Lemma handle_render_error e :
  render_error e -> handle e = internal_server_error.
Proof.
  destruct e as [cls msg]. intros [H|H]; cbn [exn_class] in H; subst cls;
    reflexivity.
Qed.

Section HandlerMore.

Variable str_lower : pystr -> pystr.
Variable render_message : response -> pystr.
Context {TranscriptList Transcript : Type}.
Variable api : provider TranscriptList Transcript.
Variables (video_id : pystr) (languages : list pystr)
          (preserve_formatting : bool).

(** The [try] body once a track is selected and fetched. *)
Lemma try_body_fetched fmt tl t fetched :
  api_list api video_id = Ok tl ->
  selects api languages tl t ->
  fetch api t preserve_formatting = Ok fetched ->
  try_body render_message api video_id languages fmt preserve_formatting
  = match fmt with
    | json => JSONResponse_init render_message fetched
    | txt => PlainTextResponse_init render_message (_format_txt fetched)
    | srt =>
        content <- _format_srt fetched ;;
        PlainTextResponse_init render_message content
    | vtt =>
        content <- _format_vtt fetched ;;
        PlainTextResponse_init render_message content
    end.
Proof.
  intros Hlist Hsel Hfetch. unfold try_body. rewrite Hlist. cbn [bind].
  rewrite (selects_lookup api languages tl t Hsel). cbn [bind].
  now rewrite Hfetch.
Qed.

Lemma plain_text_built content :
  encodable content = true ->
  PlainTextResponse_init render_message content
  = Ok (PlainTextResponse content).
Proof. unfold PlainTextResponse_init. now intros ->. Qed.

Lemma plain_text_not_built content :
  encodable content = false ->
  exists e, PlainTextResponse_init render_message content = Raise e
            /\ render_error e.
Proof.
  unfold PlainTextResponse_init. intros ->. eexists. split; [reflexivity|].
  now right.
Qed.

End HandlerMore.

(** X11. An exception that is not one of the provider's own (a subclass of
    [Exception] outside [YouTubeTranscriptApiException]) and that a provider
    call raises is answered with 500 and the fixed detail
    ["Internal Server Error"], whatever its message. *)
Theorem unexpected_error_answered_500
    (str_lower : pystr -> pystr) (render_message : response -> pystr)
    (TranscriptList Transcript : Type)
    (api : provider TranscriptList Transcript)
    (video_id : pystr) (lang : option pystr) (fmt : output_format)
    (preserve_formatting : bool) (e : exn) :
  video_id <> [] ->
  provider_raises api video_id (_parse_languages str_lower lang)
    preserve_formatting e ->
  issubclass (exn_class e) PyException = true ->
  issubclass (exn_class e) YouTubeTranscriptApiException = false ->
  get_transcript str_lower render_message api (Some video_id) lang fmt
    preserve_formatting
  = HTTPException 500 (str "Internal Server Error").
Proof.
  intros Hid Hraises Hexc Hnot. destruct video_id as [|c rest]; [contradiction|].
  unfold get_transcript.
  rewrite (provider_raises_try_body render_message api _ _ fmt _ e Hraises).
  now apply handle_unexpected.
Qed.

(** The theorem for a provider whose listing raises an [OSError]. *)
Lemma unexpected_error_answered_500_witness :
  get_transcript lower_ascii_only any_message
    (failing_provider {| exn_class := OSError; exn_msg := str "secret" |})
    (Some (str "abc")) None vtt true
  = HTTPException 500 (str "Internal Server Error").
Proof.
  apply (unexpected_error_answered_500 lower_ascii_only any_message unit unit
           (failing_provider {| exn_class := OSError; exn_msg := str "secret" |})
           (str "abc") None vtt true
           {| exn_class := OSError; exn_msg := str "secret" |}).
  - discriminate.
  - apply raises_list. reflexivity.
  - reflexivity.
  - reflexivity.
Defined.

(** X12. When the fetched transcript holds a time out of range (a start or
    an end whose product with 1000 is not finite), the formats [srt] and
    [vtt] are answered with 500 and the fixed detail, because the error of
    the serializer is raised inside the [try]. The format [txt] does not
    read the times: it is answered with the text whenever the text can be
    encoded, and with 500 when it cannot. *)
Theorem time_out_of_range_answered_500
    (str_lower : pystr -> pystr) (render_message : response -> pystr)
    (TranscriptList Transcript : Type)
    (api : provider TranscriptList Transcript)
    (video_id : pystr) (lang : option pystr) (preserve_formatting : bool)
    tl t fetched :
  video_id <> [] ->
  api_list api video_id = Ok tl ->
  selects api (_parse_languages str_lower lang) tl t ->
  fetch api t preserve_formatting = Ok fetched ->
  forallb well_timed fetched = false ->
  get_transcript str_lower render_message api (Some video_id) lang srt
    preserve_formatting
  = HTTPException 500 (str "Internal Server Error")
  /\ get_transcript str_lower render_message api (Some video_id) lang vtt
       preserve_formatting
     = HTTPException 500 (str "Internal Server Error")
  /\ get_transcript str_lower render_message api (Some video_id) lang txt
       preserve_formatting
     = if encodable (_format_txt fetched)
       then Respond (PlainTextResponse (_format_txt fetched))
       else HTTPException 500 (str "Internal Server Error").
Proof.
  intros Hid Hlist Hsel Hfetch Hbad.
  destruct video_id as [|c rest]; [contradiction|].
  destruct (serializers_raise fetched Hbad)
    as [(es & Hs & Ts) (ev & Hv & Tv)].
  unfold get_transcript.
  rewrite !(try_body_fetched render_message api _ _ _ _ tl t fetched
              Hlist Hsel Hfetch).
  rewrite Hs, Hv. cbn [bind].
  rewrite (handle_time_error es Ts), (handle_time_error ev Tv).
  split; [reflexivity|]. split; [reflexivity|].
  unfold PlainTextResponse_init.
  destruct (encodable (_format_txt fetched)); reflexivity.
Qed.

(** The theorem for a video whose one snippet starts at infinity. *)
Lemma time_out_of_range_answered_500_witness :
  get_transcript lower_ascii_only any_message
    (tracks_provider
       (english_video
          [ {| text := str "hi"; start := S754_infinity false;
               duration := Float64.of_Z 2 |} ])
       not_found_message)
    (Some (str "abc")) None srt false
  = HTTPException 500 (str "Internal Server Error").
Proof.
  apply (time_out_of_range_answered_500 lower_ascii_only any_message
           track_list (list snippet)
           (tracks_provider
              (english_video
                 [ {| text := str "hi"; start := S754_infinity false;
                      duration := Float64.of_Z 2 |} ])
              not_found_message)
           (str "abc") None false
           {| manually_created :=
                [(str "en",
                  [ {| text := str "hi"; start := S754_infinity false;
                       duration := Float64.of_Z 2 |} ])];
              generated := [] |}
           [ {| text := str "hi"; start := S754_infinity false;
                duration := Float64.of_Z 2 |} ]
           [ {| text := str "hi"; start := S754_infinity false;
                duration := Float64.of_Z 2 |} ]).
  - discriminate.
  - reflexivity.
  - apply selects_found. reflexivity.
  - reflexivity.
  - reflexivity.
Defined.

(** X13. However a call ends, it is in one of these ways: a response, only
    when a video id was given; 400 with the fixed detail, exactly when the
    video id is absent or empty; 404; 500 with the fixed detail; or an
    exception that is not an [Exception] and passes through. No call is
    answered with any other status. *)
Theorem outcome_classification
    (str_lower : pystr -> pystr) (render_message : response -> pystr)
    (TranscriptList Transcript : Type)
    (api : provider TranscriptList Transcript)
    (video_id lang : option pystr) (fmt : output_format)
    (preserve_formatting : bool) :
  let given := match video_id with
               | Some (_ :: _) => true
               | _ => false
               end in
  match get_transcript str_lower render_message api video_id lang fmt
          preserve_formatting with
  | Respond _ => given = true
  | HTTPException status_code detail =>
      (status_code = 400 /\ given = false
       /\ detail = str "Missing required query parameter 'videoId'.")
      \/ (status_code = 404 /\ given = true)
      \/ (status_code = 500 /\ given = true
          /\ detail = str "Internal Server Error")
  | Uncaught e =>
      given = true /\ issubclass (exn_class e) PyException = false
  end.
Proof.
  cbv zeta. unfold get_transcript.
  destruct video_id as [[|c v]|]; try (left; repeat split; reflexivity).
  destruct (try_body render_message api (c :: v) _ fmt preserve_formatting)
    as [r|e]; [reflexivity|].
  destruct (handle_cases e) as [H|[H|[H Hc]]]; rewrite H.
  - right. left. split; reflexivity.
  - right. right. repeat split.
  - split; [reflexivity|exact Hc].
Qed.

(** X14. The lookup of generated tracks is a fallback and nothing else: as
    long as the first lookup does not raise [NoTranscriptFound], the answer
    does not depend on what the lookup of generated tracks would do. *)
Theorem generated_lookup_is_fallback_only
    (str_lower : pystr -> pystr) (render_message : response -> pystr)
    (TranscriptList Transcript : Type)
    (api : provider TranscriptList Transcript)
    (lookup : TranscriptList -> list pystr -> result Transcript)
    (video_id lang : option pystr) (fmt : output_format)
    (preserve_formatting : bool) :
  (forall v tl e,
     video_id = Some v ->
     api_list api v = Ok tl ->
     find_transcript api tl (_parse_languages str_lower lang) = Raise e ->
     caught_by [NoTranscriptFound] e = false) ->
  get_transcript str_lower render_message (with_generated_lookup api lookup)
    video_id lang fmt preserve_formatting
  = get_transcript str_lower render_message api video_id lang fmt
      preserve_formatting.
Proof.
  intros Hfirst. unfold get_transcript.
  destruct video_id as [[|c v]|]; try reflexivity.
  unfold try_body. cbn [api_list find_transcript find_generated_transcript
                          fetch with_generated_lookup].
  destruct (api_list api (c :: v)) as [tl|e] eqn:El; [|reflexivity].
  cbn [bind].
  destruct (find_transcript api tl _) as [t|e] eqn:Ef; [reflexivity|].
  now rewrite (Hfirst (c :: v) tl e eq_refl El Ef).
Qed.

(** The theorem for a provider whose first lookup fails with
    [TranscriptsDisabled]. *)
Lemma generated_lookup_is_fallback_only_witness :
  get_transcript lower_ascii_only any_message
    (with_generated_lookup
       {| api_list := fun _ => Ok tt;
          find_transcript := fun _ _ =>
            Raise {| exn_class := TranscriptsDisabled; exn_msg := str "off" |};
          find_generated_transcript := fun _ _ => Ok tt;
          fetch := fun _ _ => Ok [] |}
       (fun _ _ => Raise {| exn_class := OSError; exn_msg := str "down" |}))
    (Some (str "abc")) None txt false
  = HTTPException 404 (str "off").
Proof.
  rewrite (generated_lookup_is_fallback_only lower_ascii_only any_message
             unit unit
             {| api_list := fun _ => Ok tt;
                find_transcript := fun _ _ =>
                  Raise {| exn_class := TranscriptsDisabled;
                           exn_msg := str "off" |};
                find_generated_transcript := fun _ _ => Ok tt;
                fetch := fun _ _ => Ok [] |}).
  - reflexivity.
  - intros v tl e _ _ [= <-]. reflexivity.
Defined.

(** ** The provider client *)

(** An environment variable is set to a non-empty value. *)
Definition env_set (v : option pystr) : bool :=
  match v with
  | Some s => truthy s
  | None => false
  end.

Lemma locations_filter pieces :
  map strip (filter (fun c => truthy (strip c)) pieces)
  = filter truthy (map strip pieces).
Proof.
  induction pieces as [|p rest IH]; [reflexivity|].
  cbn [map filter]. destruct (truthy (strip p)); cbn [map]; now rewrite IH.
Qed.

Lemma location_clean raw l :
  In l (filter truthy (map strip (split comma raw))) -> clean_code l.
Proof.
  intros Hin. apply filter_In in Hin as [Hin Ht].
  apply in_map_iff in Hin as (p & <- & Hp). split; [|split].
  - destruct (strip p); discriminate.
  - intros Hc. apply AsciiFacts.strip_sublist in Hc.
    pose proof (PyStrFacts.split_no_sep comma raw) as Hfree.
    rewrite Forall_forall in Hfree. exact (Hfree p Hp Hc).
  - apply AsciiFacts.strip_strip.
Qed.

(** X15. [_get_api] configures a proxy exactly when both [WEBSHARE_USER]
    and [WEBSHARE_PASS] are set to non-empty values, and then passes both
    on unchanged. The location filter is absent exactly when
    [WEBSHARE_COUNTRIES] is unset or empty; otherwise it lists the
    comma-separated pieces of that value, trimmed, in order, without the
    blank ones: every entry is non-empty, free of commas and of whitespace
    at both ends, and the list is empty when the value holds nothing but
    commas and whitespace. *)
Theorem get_api_proxy_config (getenv : environ) :
  let api := _get_api_body getenv in
  let username := getenv (str "WEBSHARE_USER") in
  let password := getenv (str "WEBSHARE_PASS") in
  let countries := getenv (str "WEBSHARE_COUNTRIES") in
  (proxy_config api = None
   <-> (env_set username && env_set password)%bool = false)
  /\ forall cfg, proxy_config api = Some cfg ->
       username = Some (proxy_username cfg)
       /\ password = Some (proxy_password cfg)
       /\ (filter_ip_locations cfg = None <-> env_set countries = false)
       /\ forall locations, filter_ip_locations cfg = Some locations ->
            exists raw,
              countries = Some raw
              /\ locations = filter truthy (map strip (split comma raw))
              /\ Forall clean_code locations
              /\ (locations = [] <-> names_a_language raw = false).
Proof.
  cbv zeta. unfold _get_api_body.
  destruct (getenv (str "WEBSHARE_USER")) as [u|];
    [|split; [split; reflexivity|discriminate]].
  destruct (getenv (str "WEBSHARE_PASS")) as [pw|];
    [|split; [split; [intros _; apply andb_false_r|reflexivity]|discriminate]].
  cbn [env_set]. destruct (truthy u && truthy pw)%bool eqn:Ecred;
    [|split; [split; reflexivity|discriminate]].
  cbn [proxy_config]. split; [split; discriminate|].
  intros cfg Hcfg. apply (f_equal (fun o => match o with
                                             | Some c => c
                                             | None => cfg
                                             end)) in Hcfg.
  subst cfg. cbn [proxy_username proxy_password filter_ip_locations].
  split; [reflexivity|]. split; [reflexivity|].
  destruct (getenv (str "WEBSHARE_COUNTRIES")) as [raw|];
    [|split; [split; reflexivity|discriminate]].
  cbn [env_set]. destruct (truthy raw) eqn:Eraw;
    [|split; [split; reflexivity|discriminate]].
  split; [split; discriminate|].
  intros locations Hloc. exists raw. split; [reflexivity|].
  apply (f_equal (fun o => match o with
                           | Some l => l
                           | None => locations
                           end)) in Hloc.
  rewrite locations_filter in Hloc. subst locations.
  split; [reflexivity|]. split.
  - apply Forall_forall. intros l Hl. now apply (location_clean raw).
  - assert (Hraw : raw <> []) by (destruct raw; [discriminate|discriminate]).
    pose proof (parse_languages_entry_iff lower_ascii_only
                  lower_ascii_only_spec raw Hraw) as Hiff.
    rewrite (parse_languages_some lower_ascii_only lower_ascii_only_spec
               raw Hraw), length_map in Hiff.
    destruct (filter truthy (map strip (split comma raw))) as [|l ls].
    + split; [intros _|reflexivity].
      destruct (names_a_language raw); [|reflexivity].
      assert (1 <= 0)%nat by (apply Hiff; reflexivity). lia.
    + split; [discriminate|]. intros Hn.
      assert (names_a_language raw = true) by (apply Hiff; simpl; lia).
      congruence.
Qed.

(** X16. The country filter and the language hint are read by the same
    rule, up to case: for a non-empty value, lowercasing each location of
    the filter gives the language list that [_parse_languages] returns for
    the same text. The locations themselves keep their case. *)
Theorem locations_like_languages
    (str_lower : pystr -> pystr) (lower_ok : lower_spec str_lower)
    (getenv : environ) (cfg : WebshareProxyConfig) (raw : pystr) :
  proxy_config (_get_api_body getenv) = Some cfg ->
  getenv (str "WEBSHARE_COUNTRIES") = Some raw ->
  raw <> [] ->
  exists locations,
    filter_ip_locations cfg = Some locations
    /\ _parse_languages str_lower (Some raw) = map str_lower locations.
Proof.
  intros Hcfg Hraw Hne. unfold _get_api_body in Hcfg. rewrite Hraw in Hcfg.
  destruct (getenv (str "WEBSHARE_USER")) as [u|]; [|discriminate].
  destruct (getenv (str "WEBSHARE_PASS")) as [pw|]; [|discriminate].
  destruct (truthy u && truthy pw)%bool; [|discriminate].
  destruct raw as [|c raw]; [contradiction|].
  cbn [truthy proxy_config] in Hcfg.
  exists (filter truthy (map strip (split comma (c :: raw)))).
  split.
  - apply (f_equal (fun o => match o with
                             | Some x => filter_ip_locations x
                             | None => None
                             end)) in Hcfg.
    cbn [filter_ip_locations] in Hcfg. rewrite <- Hcfg.
    now rewrite locations_filter.
  - apply (parse_languages_some str_lower lower_ok). discriminate.
Qed.

(** An environment with the three variables set. *)
Definition example_environ : environ :=
  fun name =>
    if list_eq_dec N.eq_dec name (str "WEBSHARE_USER") then Some (str "u")
    else if list_eq_dec N.eq_dec name (str "WEBSHARE_PASS") then Some (str "p")
    else if list_eq_dec N.eq_dec name (str "WEBSHARE_COUNTRIES")
         then Some (str "US, de ,")
    else None.

(** The theorem at an environment with the countries ["US, de ,"]. *)
Lemma locations_like_languages_witness :
  lower_spec lower_ascii_only
  /\ exists locations,
       filter_ip_locations
         {| proxy_username := str "u"; proxy_password := str "p";
            filter_ip_locations := Some [str "US"; str "de"] |}
       = Some locations
       /\ _parse_languages lower_ascii_only (Some (str "US, de ,"))
          = map lower_ascii_only locations.
Proof.
  split; [exact lower_ascii_only_spec|].
  apply (locations_like_languages lower_ascii_only lower_ascii_only_spec
           example_environ
           {| proxy_username := str "u"; proxy_password := str "p";
              filter_ip_locations := Some [str "US"; str "de"] |}
           (str "US, de ,")).
  - reflexivity.
  - reflexivity.
  - discriminate.
Defined.

(** X17. The client is built once: in any series of calls of [_get_api]
    that starts with an empty cache, every call returns the client built
    from the environment of the first call, whatever the environment has
    become since; and once the cache holds a client, the environment is not
    read at all. *)
Theorem get_api_built_once (first : environ) (later : list environ) :
  get_api_calls (first :: later) None
  = repeat (_get_api_body first) (S (length later))
  /\ forall api environments,
       get_api_calls environments (Some api)
       = repeat api (length environments).
Proof.
  assert (Hcached : forall api environments,
            get_api_calls environments (Some api)
            = repeat api (length environments)).
  { intros api environments. induction environments as [|e rest IH];
      [reflexivity|].
    cbn [get_api_calls _get_api length repeat]. now rewrite IH. }
  split; [|exact Hcached].
  cbn [get_api_calls _get_api length repeat]. now rewrite Hcached.
Qed.

(** ** Bodies that can be encoded *)

Module EncodeFacts.

Lemma encodable_app a b :
  encodable (a ++ b) = (encodable a && encodable b)%bool.
Proof. apply forallb_app. Qed.

Lemma surrogate_in s c :
  In c s -> is_surrogate c = true -> encodable s = false.
Proof.
  intros Hin Hc. destruct (encodable s) eqn:E; [|reflexivity].
  unfold encodable in E. rewrite forallb_forall in E.
  specialize (E c Hin). rewrite Hc in E. discriminate.
Qed.

Lemma not_encodable_surrogate s :
  encodable s = false -> exists c, In c s /\ is_surrogate c = true.
Proof.
  induction s as [|a s IH]; [discriminate|].
  unfold encodable. cbn [forallb]. intros H.
  apply andb_false_iff in H as [H|H].
  - exists a. split; [now left|]. now destruct (is_surrogate a).
  - destruct (IH H) as (c & Hin & Hc). exists c. split; [now right|exact Hc].
Qed.

Lemma surrogate_not_space c : is_surrogate c = true -> is_space c = false.
Proof.
  unfold is_surrogate. intros H. apply AsciiFacts.in_range_spec in H.
  destruct (is_space c) eqn:E; [|reflexivity].
  apply AsciiFacts.is_space_cases in E. lia.
Qed.

Lemma encodable_chars s :
  (forall c, In c s -> (c < 55296)%N) -> encodable s = true.
Proof.
  intros H. apply forallb_forall. intros c Hc. specialize (H c Hc).
  unfold is_surrogate, in_range.
  destruct (N.leb_spec 55296 c); [lia|reflexivity].
Qed.

Lemma encodable_format_0d w n : encodable (format_0d w n) = true.
Proof.
  apply encodable_chars. intros c Hc.
  destruct (format_0d_chars w n c Hc) as [Hd| ->]; [|reflexivity].
  apply AsciiFacts.in_range_spec in Hd. lia.
Qed.

Lemma encodable_str_int n : encodable (str_int n) = true.
Proof.
  assert (Hd : forall m, 0 <= m -> encodable (digits m) = true).
  { intros m Hm. apply encodable_chars. intros c Hc.
    pose proof (DigitsFacts.digits_all_digits m Hm) as Hall.
    rewrite forallb_forall in Hall. specialize (Hall c Hc).
    apply AsciiFacts.in_range_spec in Hall. lia. }
  unfold str_int. destruct (Z.ltb_spec n 0).
  - change (encodable (minus_sign :: digits (- n)))
      with (encodable [minus_sign] && encodable (digits (- n)))%bool.
    now rewrite Hd by lia.
  - now apply Hd.
Qed.

Lemma encodable_timestamp :
  (forall x s, _to_srt_timestamp x = Ok s -> encodable s = true)
  /\ (forall x s, _to_vtt_timestamp x = Ok s -> encodable s = true).
Proof.
  split; intros x s Hs; destruct (rounded_ms x) as [ms|e] eqn:E.
  - rewrite (to_srt_timestamp_ok _ _ E) in Hs. apply Ok_inj in Hs. subst s.
    now rewrite !encodable_app, !encodable_format_0d.
  - destruct (timestamps_raise _ _ E) as [H _]. congruence.
  - rewrite (to_vtt_timestamp_ok _ _ E) in Hs. apply Ok_inj in Hs. subst s.
    now rewrite !encodable_app, !encodable_format_0d.
  - destruct (timestamps_raise _ _ E) as [_ H]. congruence.
Qed.

Lemma encodable_emit lines :
  forallb encodable lines = true -> encodable (emit lines) = true.
Proof.
  induction lines as [|l rest IH]; [reflexivity|].
  cbn [forallb]. intros H. apply andb_prop in H as [Hl Hrest].
  change (emit (l :: rest)) with ((l ++ nl) ++ emit rest).
  now rewrite !encodable_app, Hl, IH.
Qed.

Lemma encodable_concat pieces :
  Forall (fun p => encodable p = true) pieces ->
  encodable (concat pieces) = true.
Proof.
  induction 1 as [|p rest Hp _ IH]; [reflexivity|].
  cbn [concat]. now rewrite encodable_app, Hp, IH.
Qed.

Lemma encodable_rstrip s : encodable s = true -> encodable (rstrip s) = true.
Proof.
  destruct (PyStrFacts.rstrip_decompose s) as (r & Hs & _).
  intros H. rewrite Hs, encodable_app in H. now apply andb_prop in H as [H _].
Qed.

Lemma forallb_texts {A} (f : A -> pystr) l :
  forallb encodable (map f l) = forallb (fun a => encodable (f a)) l.
Proof.
  induction l as [|a l IH]; [reflexivity|]. cbn [map forallb]. now rewrite IH.
Qed.

Lemma encodable_join pieces :
  encodable (join nl pieces) = forallb encodable pieces.
Proof.
  induction pieces as [|p rest IH]; [reflexivity|].
  destruct rest as [|q rest].
  - cbn [join forallb]. now rewrite andb_true_r.
  - rewrite PyStrFacts.join_cons, !encodable_app, IH. reflexivity.
Qed.

(** A character that is not whitespace survives the trimming. *)
Lemma in_rstrip s c : In c s -> is_space c = false -> In c (rstrip s).
Proof.
  destruct (PyStrFacts.rstrip_decompose s) as (r & Hs & Hr & _).
  intros Hin Hc. rewrite Hs in Hin. apply in_app_or in Hin as [Hin|Hin];
    [exact Hin|].
  rewrite forallb_forall in Hr. rewrite (Hr c Hin) in Hc. discriminate.
Qed.

Lemma traverse_Forall {A B} (f : A -> result B) (P : A -> Prop)
    (Q : B -> Prop) l bs :
  (forall a b, P a -> f a = Ok b -> Q b) ->
  Forall P l -> traverse f l = Ok bs -> Forall Q bs.
Proof.
  intros Hf Hl. revert bs. induction Hl as [|a rest Ha _ IH]; intros bs H.
  - apply Ok_inj in H. subst bs. constructor.
  - cbn [traverse] in H. destruct (f a) as [b|e] eqn:Eb; [|discriminate].
    cbn [bind] in H. destruct (traverse f rest) as [bs'|e]; [|discriminate].
    apply Ok_inj in H. subst bs. constructor; [now apply (Hf a)|now apply IH].
Qed.

Lemma traverse_In {A B} (f : A -> result B) l bs a :
  traverse f l = Ok bs -> In a l -> exists b, In b bs /\ f a = Ok b.
Proof.
  revert bs. induction l as [|x rest IH]; intros bs H Hin; [destruct Hin|].
  cbn [traverse] in H. destruct (f x) as [y|e] eqn:Ex; [|discriminate].
  cbn [bind] in H. destruct (traverse f rest) as [bs'|e]; [|discriminate].
  apply Ok_inj in H. subst bs. destruct Hin as [->|Hin].
  - exists y. split; [now left|exact Ex].
  - destruct (IH bs' eq_refl Hin) as (b & Hb & Hf).
    exists b. split; [now right|exact Hf].
Qed.

Lemma cue_encodable :
  (forall cue c, encodable (text (snd cue)) = true ->
                 srt_cue cue = Ok c -> encodable c = true)
  /\ (forall sn c, encodable (text sn) = true ->
                   vtt_cue sn = Ok c -> encodable c = true).
Proof.
  destruct encodable_timestamp as [Hsrt Hvtt]. split.
  - intros [i sn] c Ht. cbn [snd] in Ht. unfold srt_cue.
    destruct (_to_srt_timestamp (start sn)) as [ts|e] eqn:E1; [|discriminate].
    destruct (_to_srt_timestamp (Float64.add (start sn) (duration sn)))
      as [te|e] eqn:E2; [|discriminate].
    cbn [bind]. intros H. apply Ok_inj in H. subst c.
    apply encodable_emit. cbn [forallb].
    now rewrite encodable_str_int, !encodable_app, (Hsrt _ _ E1),
      (Hsrt _ _ E2), Ht.
  - intros sn c Ht. unfold vtt_cue.
    destruct (_to_vtt_timestamp (start sn)) as [ts|e] eqn:E1; [|discriminate].
    destruct (_to_vtt_timestamp (Float64.add (start sn) (duration sn)))
      as [te|e] eqn:E2; [|discriminate].
    cbn [bind]. intros H. apply Ok_inj in H. subst c.
    apply encodable_emit. cbn [forallb].
    now rewrite !encodable_app, (Hvtt _ _ E1), (Hvtt _ _ E2), Ht.
Qed.

Lemma cue_holds_text :
  (forall cue c x, srt_cue cue = Ok c -> In x (text (snd cue)) -> In x c)
  /\ (forall sn c x, vtt_cue sn = Ok c -> In x (text sn) -> In x c).
Proof.
  split.
  - intros [i sn] c x. cbn [snd]. unfold srt_cue.
    destruct (_to_srt_timestamp (start sn)) as [ts|e]; [|discriminate].
    destruct (_to_srt_timestamp (Float64.add (start sn) (duration sn)))
      as [te|e]; [|discriminate].
    cbn [bind]. intros H Hx. apply Ok_inj in H. subst c.
    unfold emit. cbn [map concat]. rewrite !in_app_iff. tauto.
  - intros sn c x. unfold vtt_cue.
    destruct (_to_vtt_timestamp (start sn)) as [ts|e]; [|discriminate].
    destruct (_to_vtt_timestamp (Float64.add (start sn) (duration sn)))
      as [te|e]; [|discriminate].
    cbn [bind]. intros H Hx. apply Ok_inj in H. subst c.
    unfold emit. cbn [map concat]. rewrite !in_app_iff. tauto.
Qed.

(** The bodies can be encoded when the texts can. *)
Lemma bodies_encodable transcript :
  forallb (fun sn => encodable (text sn)) transcript = true ->
  (forall body, _format_srt transcript = Ok body -> encodable body = true)
  /\ (forall body, _format_vtt transcript = Ok body -> encodable body = true)
  /\ encodable (_format_txt transcript) = true.
Proof.
  intros Hall. destruct cue_encodable as [Cs Cv].
  assert (HF : Forall (fun sn => encodable (text sn) = true) transcript)
    by (apply Forall_forall; now apply forallb_forall).
  split; [|split].
  - intros body. rewrite format_srt_emit.
    destruct (traverse srt_cue (numbered transcript)) as [cues|e] eqn:E;
      cbn [bind]; [|discriminate].
    intros H. apply Ok_inj in H. subst body.
    rewrite encodable_app, encodable_rstrip; [reflexivity|].
    apply encodable_concat.
    apply (traverse_Forall srt_cue
             (fun cue => encodable (text (snd cue)) = true) _ _ _ Cs) in E;
      [exact E|].
    apply Forall_forall. intros cue Hin. rewrite Forall_forall in HF.
    apply HF. rewrite <- (numbered_snd transcript). now apply in_map.
  - intros body. rewrite format_vtt_emit.
    destruct (traverse vtt_cue transcript) as [cues|e] eqn:E;
      cbn [bind]; [|discriminate].
    intros H. apply Ok_inj in H. subst body.
    rewrite encodable_app, encodable_rstrip; [reflexivity|].
    rewrite !encodable_app. cbn [andb].
    change (encodable (str "WEBVTT")) with true.
    change (encodable nl) with true. cbn [andb].
    apply encodable_concat.
    now apply (traverse_Forall vtt_cue _ _ _ _ Cv HF) in E.
  - unfold _format_txt. rewrite encodable_join, forallb_texts. exact Hall.
Qed.

(** The bodies cannot be encoded when some text cannot. *)
Lemma bodies_not_encodable transcript :
  forallb (fun sn => encodable (text sn)) transcript = false ->
  (forall body, _format_srt transcript = Ok body -> encodable body = false)
  /\ (forall body, _format_vtt transcript = Ok body -> encodable body = false)
  /\ encodable (_format_txt transcript) = false.
Proof.
  intros Hbad. destruct cue_holds_text as [Ts Tv].
  assert (Hsn : exists sn x, In sn transcript /\ In x (text sn)
                             /\ is_surrogate x = true).
  { induction transcript as [|sn rest IH]; [discriminate|].
    cbn [forallb] in Hbad. apply andb_false_iff in Hbad as [H|H].
    - destruct (not_encodable_surrogate _ H) as (x & Hx & Hs).
      exists sn, x. split; [now left|now split].
    - destruct (IH H) as (sn' & x & Hin & Hx & Hs).
      exists sn', x. split; [now right|now split]. }
  destruct Hsn as (sn & x & Hin & Hx & Hs).
  split; [|split].
  - intros body. rewrite format_srt_emit.
    destruct (traverse srt_cue (numbered transcript)) as [cues|e] eqn:E;
      cbn [bind]; [|discriminate].
    intros H. apply Ok_inj in H. subst body.
    apply In_nth_error in Hin as (i & Hi). apply numbered_nth in Hi.
    apply nth_error_In in Hi.
    destruct (traverse_In srt_cue _ _ _ E Hi) as (c & Hc & Hcue).
    apply (surrogate_in _ x); [|exact Hs]. apply in_or_app. left.
    apply in_rstrip; [|now apply surrogate_not_space].
    apply in_concat. exists c. split; [exact Hc|]. now apply (Ts _ _ _ Hcue).
  - intros body. rewrite format_vtt_emit.
    destruct (traverse vtt_cue transcript) as [cues|e] eqn:E;
      cbn [bind]; [|discriminate].
    intros H. apply Ok_inj in H. subst body.
    destruct (traverse_In vtt_cue _ _ _ E Hin) as (c & Hc & Hcue).
    apply (surrogate_in _ x); [|exact Hs]. apply in_or_app. left.
    apply in_rstrip; [|now apply surrogate_not_space].
    rewrite !in_app_iff. right. right. right.
    apply in_concat. exists c. split; [exact Hc|]. now apply (Tv _ _ _ Hcue).
  - unfold _format_txt. rewrite encodable_join, forallb_texts. exact Hbad.
Qed.

(** A snippet whose times can be formatted holds finite numbers. *)
Lemma well_timed_json_compliant sn :
  well_timed sn = true -> json_compliant sn = true.
Proof.
  unfold well_timed, json_compliant. intros H. apply andb_prop in H as [H1 H2].
  assert (Hmul : forall x,
            Float64.is_finite (Float64.mul x (Float64.of_Z 1000)) = true ->
            Float64.is_finite x = true).
  { intros x. rewrite Float64Facts.thousand.
    destruct x; intros Hx; try reflexivity; cbn in Hx; discriminate. }
  apply Hmul in H1, H2. rewrite H1. cbn [andb].
  destruct (start sn) as [s1|s1| |s1 m1 e1], (duration sn) as [s2|s2| |s2 m2 e2];
    try reflexivity; try discriminate H1;
    try (destruct s1, s2; cbn in H2; discriminate H2);
    try (destruct s2; cbn in H2; discriminate H2);
    cbn in H2; discriminate H2.
Qed.

End EncodeFacts.

Lemma serializers_return transcript :
  forallb well_timed transcript = true ->
  (exists body, _format_srt transcript = Ok body /\ one_trailing_newline body)
  /\ (exists body, _format_vtt transcript = Ok body
                   /\ one_trailing_newline body).
Proof.
  intros Hall. split.
  - rewrite format_srt_emit.
    destruct (well_timed_cues _ srt_cue snd (numbered transcript))
      as (cues & ->).
    + intros a. apply srt_cue_defined.
    + now rewrite numbered_snd.
    + eexists. split; [reflexivity|apply trimmed_line_ends_once].
  - rewrite format_vtt_emit.
    destruct (well_timed_cues _ vtt_cue (fun sn => sn) transcript)
      as (cues & ->).
    + intros a. apply vtt_cue_defined.
    + now rewrite map_id.
    + eexists. split; [reflexivity|apply trimmed_line_ends_once].
Qed.

(** A serializer only fails on a time out of range. *)
Lemma serializers_raise_time_error transcript e :
  _format_srt transcript = Raise e \/ _format_vtt transcript = Raise e ->
  time_error e.
Proof.
  intros H. destruct (forallb well_timed transcript) eqn:E.
  - destruct (serializers_return transcript E) as [(bs & Hs & _) (bv & Hv & _)].
    destruct H as [H|H]; congruence.
  - destruct (serializers_raise transcript E) as [(es & Hs & Ts) (ev & Hv & Tv)].
    destruct H as [H|H]; [rewrite Hs in H|rewrite Hv in H];
      injection H as <-; assumption.
Qed.

(** X18. When a track is selected and fetched, every time of the
    transcript is in range and no text holds a surrogate code point, the
    formats [srt], [vtt] and [txt] are answered with the body of the
    matching serializer; the [srt] and [vtt] bodies end with exactly one
    newline. *)
Theorem fetched_transcript_is_served
    (str_lower : pystr -> pystr) (render_message : response -> pystr)
    (TranscriptList Transcript : Type)
    (api : provider TranscriptList Transcript)
    (video_id : pystr) (lang : option pystr) (preserve_formatting : bool)
    tl t fetched :
  video_id <> [] ->
  api_list api video_id = Ok tl ->
  selects api (_parse_languages str_lower lang) tl t ->
  fetch api t preserve_formatting = Ok fetched ->
  forallb well_timed fetched = true ->
  forallb (fun sn => encodable (text sn)) fetched = true ->
  (exists body,
     _format_srt fetched = Ok body /\ one_trailing_newline body
     /\ get_transcript str_lower render_message api (Some video_id) lang srt
          preserve_formatting
        = Respond (PlainTextResponse body))
  /\ (exists body,
        _format_vtt fetched = Ok body /\ one_trailing_newline body
        /\ get_transcript str_lower render_message api (Some video_id) lang vtt
             preserve_formatting
           = Respond (PlainTextResponse body))
  /\ get_transcript str_lower render_message api (Some video_id) lang txt
       preserve_formatting
     = Respond (PlainTextResponse (_format_txt fetched)).
Proof.
  intros Hid Hlist Hsel Hfetch Hall Henc.
  destruct video_id as [|c rest]; [contradiction|].
  destruct (serializers_return fetched Hall)
    as [(bs & Hs & Ns) (bv & Hv & Nv)].
  destruct (EncodeFacts.bodies_encodable fetched Henc) as (Es & Ev & Et).
  unfold get_transcript.
  rewrite !(try_body_fetched render_message api _ _ _ _ tl t fetched
              Hlist Hsel Hfetch).
  rewrite Hs, Hv. cbn [bind].
  rewrite !plain_text_built by auto.
  split; [exists bs; repeat split; assumption|].
  split; [exists bv; repeat split; assumption|reflexivity].
Qed.

(** The theorem for a video with one English track of one snippet. *)
Lemma fetched_transcript_is_served_witness :
  get_transcript lower_ascii_only any_message
    (tracks_provider
       (english_video
          [ {| text := str "hi"; start := Float64.of_Z 1;
               duration := Float64.of_Z 2 |} ])
       not_found_message)
    (Some (str "abc")) None txt false
  = Respond (PlainTextResponse (str "hi")).
Proof.
  apply (proj2 (proj2 (fetched_transcript_is_served lower_ascii_only
           any_message track_list (list snippet)
           (tracks_provider
              (english_video
                 [ {| text := str "hi"; start := Float64.of_Z 1;
                      duration := Float64.of_Z 2 |} ])
              not_found_message)
           (str "abc") None false
           {| manually_created :=
                [(str "en",
                  [ {| text := str "hi"; start := Float64.of_Z 1;
                       duration := Float64.of_Z 2 |} ])];
              generated := [] |}
           [ {| text := str "hi"; start := Float64.of_Z 1;
                duration := Float64.of_Z 2 |} ]
           [ {| text := str "hi"; start := Float64.of_Z 1;
                duration := Float64.of_Z 2 |} ]
           ltac:(discriminate) eq_refl
           ltac:(apply selects_found; reflexivity) eq_refl eq_refl eq_refl))).
Defined.

(** X19. When the fetched transcript holds a text with a surrogate code
    point, no response can be built from it: the body of every format
    holds that text and cannot be encoded, and the request is answered
    with 500 and the fixed detail, whatever the format. *)
Theorem unencodable_text_answered_500
    (str_lower : pystr -> pystr) (render_message : response -> pystr)
    (TranscriptList Transcript : Type)
    (api : provider TranscriptList Transcript)
    (video_id : pystr) (lang : option pystr) (fmt : output_format)
    (preserve_formatting : bool) tl t fetched :
  video_id <> [] ->
  api_list api video_id = Ok tl ->
  selects api (_parse_languages str_lower lang) tl t ->
  fetch api t preserve_formatting = Ok fetched ->
  forallb (fun sn => encodable (text sn)) fetched = false ->
  get_transcript str_lower render_message api (Some video_id) lang fmt
    preserve_formatting
  = HTTPException 500 (str "Internal Server Error").
Proof.
  intros Hid Hlist Hsel Hfetch Hbad.
  destruct video_id as [|c rest]; [contradiction|].
  destruct (EncodeFacts.bodies_not_encodable fetched Hbad) as (Es & Ev & Et).
  unfold get_transcript.
  rewrite (try_body_fetched render_message api _ _ _ fmt tl t fetched
             Hlist Hsel Hfetch).
  destruct fmt.
  - unfold JSONResponse_init. rewrite Hbad.
    destruct (forallb json_compliant fetched); reflexivity.
  - destruct (_format_srt fetched) as [body|e] eqn:E; cbn [bind].
    + destruct (plain_text_not_built render_message body (Es body eq_refl))
        as (e & -> & He).
      now apply handle_render_error.
    + apply handle_time_error.
      apply (serializers_raise_time_error fetched). now left.
  - destruct (_format_vtt fetched) as [body|e] eqn:E; cbn [bind].
    + destruct (plain_text_not_built render_message body (Ev body eq_refl))
        as (e & -> & He).
      now apply handle_render_error.
    + apply handle_time_error.
      apply (serializers_raise_time_error fetched). now right.
  - destruct (plain_text_not_built render_message _ Et) as (e & -> & He).
    now apply handle_render_error.
Qed.

(** The theorem for a track whose text is the lone surrogate U+D800. *)
Lemma unencodable_text_answered_500_witness :
  get_transcript lower_ascii_only any_message
    (tracks_provider
       (english_video
          [ {| text := [55296%N]; start := Float64.of_Z 1;
               duration := Float64.of_Z 2 |} ])
       not_found_message)
    (Some (str "abc")) None txt false
  = HTTPException 500 (str "Internal Server Error").
Proof.
  apply (unencodable_text_answered_500 lower_ascii_only any_message
           track_list (list snippet)
           (tracks_provider
              (english_video
                 [ {| text := [55296%N]; start := Float64.of_Z 1;
                      duration := Float64.of_Z 2 |} ])
              not_found_message)
           (str "abc") None txt false
           {| manually_created :=
                [(str "en",
                  [ {| text := [55296%N]; start := Float64.of_Z 1;
                       duration := Float64.of_Z 2 |} ])];
              generated := [] |}
           [ {| text := [55296%N]; start := Float64.of_Z 1;
                duration := Float64.of_Z 2 |} ]
           [ {| text := [55296%N]; start := Float64.of_Z 1;
                duration := Float64.of_Z 2 |} ]).
  - discriminate.
  - reflexivity.
  - apply selects_found. reflexivity.
  - reflexivity.
  - reflexivity.
Defined.

(** X20. The format [json] is answered with the fetched snippets exactly
    when every start and duration is finite and no text holds a surrogate
    code point; otherwise the response cannot be built and the request is
    answered with 500 and the fixed detail. Snippets whose times can be
    formatted have finite numbers. *)
Theorem json_answer
    (str_lower : pystr -> pystr) (render_message : response -> pystr)
    (TranscriptList Transcript : Type)
    (api : provider TranscriptList Transcript)
    (video_id : pystr) (lang : option pystr) (preserve_formatting : bool)
    tl t fetched :
  video_id <> [] ->
  api_list api video_id = Ok tl ->
  selects api (_parse_languages str_lower lang) tl t ->
  fetch api t preserve_formatting = Ok fetched ->
  get_transcript str_lower render_message api (Some video_id) lang json
    preserve_formatting
  = (if forallb json_compliant fetched
        && forallb (fun sn => encodable (text sn)) fetched
     then Respond (JSONResponse fetched)
     else HTTPException 500 (str "Internal Server Error"))
  /\ (forallb well_timed fetched = true ->
      forallb json_compliant fetched = true).
Proof.
  intros Hid Hlist Hsel Hfetch.
  destruct video_id as [|c rest]; [contradiction|]. split.
  - unfold get_transcript.
    rewrite (try_body_fetched render_message api _ _ _ json tl t fetched
               Hlist Hsel Hfetch).
    unfold JSONResponse_init.
    destruct (forallb json_compliant fetched),
      (forallb (fun sn => encodable (text sn)) fetched); reflexivity.
  - intros Hall. apply forallb_forall. intros sn Hin.
    apply EncodeFacts.well_timed_json_compliant.
    rewrite forallb_forall in Hall. now apply Hall.
Qed.

(** The theorem for a video with one English track of one snippet. *)
Lemma json_answer_witness :
  get_transcript lower_ascii_only any_message
    (tracks_provider
       (english_video
          [ {| text := str "hi"; start := Float64.of_Z 1;
               duration := Float64.of_Z 2 |} ])
       not_found_message)
    (Some (str "abc")) None json false
  = Respond
      (JSONResponse
         [ {| text := str "hi"; start := Float64.of_Z 1;
              duration := Float64.of_Z 2 |} ]).
Proof.
  apply (proj1 (json_answer lower_ascii_only any_message
           track_list (list snippet)
           (tracks_provider
              (english_video
                 [ {| text := str "hi"; start := Float64.of_Z 1;
                      duration := Float64.of_Z 2 |} ])
              not_found_message)
           (str "abc") None false
           {| manually_created :=
                [(str "en",
                  [ {| text := str "hi"; start := Float64.of_Z 1;
                       duration := Float64.of_Z 2 |} ])];
              generated := [] |}
           [ {| text := str "hi"; start := Float64.of_Z 1;
                duration := Float64.of_Z 2 |} ]
           [ {| text := str "hi"; start := Float64.of_Z 1;
                duration := Float64.of_Z 2 |} ]
           ltac:(discriminate) eq_refl
           ltac:(apply selects_found; reflexivity) eq_refl)).
Defined.
